(** * cry-data-analysis: aggregation and risk scoring scripts

    A shallow embedding of the data-preparation scripts
    [scripts/add_region_district_data.py],
    [scripts/add_region_district_education.py],
    [scripts/analyze_protection_risk.py] and [scripts/fix_json_nan.py].

    Python texts are modelled as [string] (texts of 8-bit characters; the
    case mapping and the white space of the ASCII range are the ones
    modelled), Python integers as [Z], dictionaries that the scripts use as
    accumulators as [gmap], Python sets as [gset]. *)

From Stdlib Require Import ZArith List Ascii String.
From stdpp Require Import gmap strings list fin_maps pretty sorting.

#[local] Set Warnings "-register-all".

Local Open Scope string_scope.
Local Open Scope Z_scope.

(** ** Texts: the part of Python's [str] the scripts use *)

Module Text.

(** [c.lower()] on one character of the ASCII range. *)
Definition lower_ascii (c : ascii) : ascii :=
  let n := nat_of_ascii c in
  if (Nat.leb 65 n && Nat.leb n 90)%bool then ascii_of_nat (n + 32) else c.

(** [s.lower()] *)
Fixpoint lower (s : string) : string :=
  match s with
  | EmptyString => EmptyString
  | String c s' => String (lower_ascii c) (lower s')
  end.

(** [c.isspace()] on the ASCII range: tab, line feed, vertical tab, form
    feed, carriage return, the four separators 0x1c-0x1f, and space. *)
Definition isspace (c : ascii) : bool :=
  let n := nat_of_ascii c in
  ((Nat.leb 9 n && Nat.leb n 13) || (Nat.leb 28 n && Nat.leb n 32))%bool.

(** [s.lstrip()] *)
Fixpoint lstrip (s : string) : string :=
  match s with
  | EmptyString => EmptyString
  | String c s' => if isspace c then lstrip s' else s
  end.

(** [s.rstrip()]: a character is kept when it is not white space or when
    something is left to its right. *)
Fixpoint rstrip (s : string) : string :=
  match s with
  | EmptyString => EmptyString
  | String c s' =>
      match rstrip s' with
      | EmptyString => if isspace c then EmptyString else String c EmptyString
      | r => String c r
      end
  end.

(** [s.strip()] *)
Definition strip (s : string) : string := rstrip (lstrip s).

(** [s.startswith(p)] *)
Fixpoint startswith (p s : string) : bool :=
  match p, s with
  | EmptyString, _ => true
  | String a p', String b s' => if ascii_dec a b then startswith p' s' else false
  | String _ _, EmptyString => false
  end.

(** [p in s]: some suffix of [s] starts with [p]. *)
Fixpoint contains (p s : string) : bool :=
  startswith p s ||
  match s with
  | EmptyString => false
  | String _ s' => contains p s'
  end.

(** [s in l] for a list of texts. *)
Definition mem (s : string) (l : list string) : bool :=
  bool_decide (s ∈ l).

End Text.

(** ** Scalar values of a record *)

(** A field of a record holds [None], a boolean, an integer, a float or a
    text.  A float is carried by the text [str] gives for it (["nan"] for a
    missing spreadsheet cell), which is all the scripts look at. *)
Inductive value : Type :=
  | VNone
  | VBool (b : bool)
  | VInt (n : Z)
  | VFloat (repr : string)
  | VStr (s : string).

(** [str(v)] *)
Definition py_str (v : value) : string :=
  match v with
  | VNone => "None"
  | VBool true => "True"
  | VBool false => "False"
  | VInt n => pretty n
  | VFloat r => r
  | VStr s => s
  end.

(** A record (a JSON object of the input, a row of a data frame): field
    name to value. *)
Abbreviation record := (gmap string value).

(** [r.get(key, default)] *)
Definition get (r : record) (key : string) (default : value) : value :=
  match r !! key with
  | Some v => v
  | None => default
  end.

(** ** Risk scorer: [scripts/analyze_protection_risk.py] *)

Module Risk.
Import Text.

(** The columns the three scorers read. *)
Definition F_enrollment := "Enrollment status".
Definition F_economic :=
  "Is the child involved in any Economic activities? (with or without wage/ monetary compensation for the child)".
Definition F_bonded := "Bonded labour involvement".
Definition F_single_parent := "Whether the HH is headed by a single parent".
Definition F_grandparent := "Whether the HH is headed by grand parents".
Definition F_child_headed := "Whether headed by children (18 years and below)".
Definition F_earner_ill :=
  "Whether the primary bread-earner of the HH is terminally/seriously ill".
Definition F_migrated := "Child migrated in the last 3 months?".
Definition F_hh_migrates := "Whether Household migrates every year".
Definition F_missing := "Is any child missing?".
Definition F_ration := "Type of Ration card".

(** [str(row.get(key, '')).lower()] *)
Definition field (row : record) (key : string) : string :=
  lower (py_str (get row key (VStr ""))).

(** The running pair [(score, factors)]. *)
Definition acc : Type := Z * list string.

(** [score += pts; factors.append(label)] *)
Definition hit (pts : Z) (label : string) (st : acc) : acc :=
  (fst st + pts, (snd st ++ [label])%list).

(** [return min(score, 100), factors] *)
Definition finish (st : acc) : acc := (Z.min (fst st) 100, snd st).

Definition calc_child_marriage_risk (row : record) : acc :=
  let st : acc := (0, []) in
  let enrollment := field row F_enrollment in
  let st :=
    if contains "drop out" enrollment || contains "never enrolled" enrollment
    then hit 20 "Out of school" st else st in
  let single_parent := field row F_single_parent in
  let grandparent := field row F_grandparent in
  let child_headed := field row F_child_headed in
  let st :=
    if String.eqb single_parent "yes" || String.eqb grandparent "yes"
       || String.eqb child_headed "yes"
    then hit 15 "Orphan/Single parent" st else st in
  let earner_ill := field row F_earner_ill in
  let st :=
    if String.eqb earner_ill "yes" then hit 5 "Primary earner ill" st else st in
  let migrated := field row F_migrated in
  let hh_migrates := field row F_hh_migrates in
  let st :=
    if contains "yes" migrated || String.eqb hh_migrates "yes"
    then hit 5 "Migration/Risk area" st else st in
  let missing := field row F_missing in
  let st :=
    if String.eqb missing "yes" then hit 10 "Missing children in HH" st else st in
  let ration := field row F_ration in
  let st :=
    if contains "below poverty" ration || contains "no ration" ration
    then hit 10 "BPL/Economic hardship" st else st in
  finish st.

Definition calc_child_labour_risk (row : record) : acc :=
  let st : acc := (0, []) in
  let enrollment := field row F_enrollment in
  let economic := field row F_economic in
  let st :=
    if contains "drop out" enrollment || contains "never enrolled" enrollment
    then hit 15 "Out of school" st else st in
  let st :=
    if contains "yes" economic
    then
      let st := hit 15 "Economic activity" st in
      if contains "outside home alone" economic
      then hit 10 "Works outside alone" st else st
    else st in
  let bonded := field row F_bonded in
  let st := if String.eqb bonded "yes" then hit 20 "Bonded labor" st else st in
  let single_parent := field row F_single_parent in
  let grandparent := field row F_grandparent in
  let child_headed := field row F_child_headed in
  let st :=
    if String.eqb single_parent "yes" || String.eqb grandparent "yes"
       || String.eqb child_headed "yes"
    then hit 10 "Orphan/Single parent" st else st in
  let ration := field row F_ration in
  let earner_ill := field row F_earner_ill in
  let st :=
    if contains "below poverty" ration || contains "no ration" ration
       || String.eqb earner_ill "yes"
    then hit 10 "Economic hardship" st else st in
  let migrated := field row F_migrated in
  let hh_migrates := field row F_hh_migrates in
  let st :=
    if contains "yes" migrated || String.eqb hh_migrates "yes"
    then hit 10 "Migration/Risk area" st else st in
  let missing := field row F_missing in
  let st :=
    if String.eqb missing "yes" then hit 10 "Protection issues" st else st in
  finish st.

Definition calc_child_trafficking_risk (row : record) : acc :=
  let st : acc := (0, []) in
  let enrollment := field row F_enrollment in
  let economic := field row F_economic in
  let is_out_of_school :=
    contains "drop out" enrollment || contains "never enrolled" enrollment in
  let is_economically_active := contains "yes" economic in
  let st :=
    if is_out_of_school && is_economically_active
    then hit 25 "Out of school + Economic activity" st
    else if is_out_of_school then hit 15 "Out of school" st
    else if is_economically_active then hit 10 "Economic activity" st
    else st in
  let migrated := field row F_migrated in
  let hh_migrates := field row F_hh_migrates in
  let st :=
    if String.eqb hh_migrates "yes" then hit 20 "Migrant family" st
    else if contains "yes" migrated then hit 15 "Child migrated" st
    else st in
  let single_parent := field row F_single_parent in
  let grandparent := field row F_grandparent in
  let child_headed := field row F_child_headed in
  let st :=
    if String.eqb single_parent "yes" || String.eqb grandparent "yes"
       || String.eqb child_headed "yes"
    then hit 20 "Orphan/Single parent" st else st in
  let ration := field row F_ration in
  let earner_ill := field row F_earner_ill in
  let st :=
    if contains "below poverty" ration || contains "no ration" ration
       || String.eqb earner_ill "yes"
    then hit 10 "Economic hardship" st else st in
  let st :=
    if contains "agent" migrated || contains "contractor" migrated
       || contains "labour" migrated
    then hit 20 "Trafficking risk (agent migration)" st else st in
  let missing := field row F_missing in
  let st :=
    if String.eqb missing "yes" then hit 15 "Missing children in HH" st else st in
  finish st.

Definition get_risk_level (score : Z) : string :=
  if score >=? 50 then "High"
  else if score >=? 25 then "Medium"
  else if score >? 0 then "Low"
  else "Minimal".

(** A column that is absent from the row, or whose lowered text does not
    fire the rule's test. *)
Definition quiet (row : record) (key : string) (test : string -> bool) : Prop :=
  row !! key = None \/ test (field row key) = false.

(** The record of the example: the two columns and nothing else. *)
Definition drop_out_row : record :=
  {[ F_enrollment := VStr "Drop Out"; F_single_parent := VStr "Yes" ]}.

End Risk.

(** ** Aggregator: [scripts/add_region_district_data.py] and
    [scripts/add_region_district_education.py]

    The two scripts share the helpers and the loop body line for line; they
    differ in the files they read and write. *)

Module Aggregate.
Import Text.

(** [safe_str(value, default='Unknown')] *)
Definition safe_str (v : value) : string :=
  match v with
  | VNone => "Unknown"
  | _ => let s := strip (py_str v) in
         if String.eqb s "" then "Unknown" else s
  end.

(** [safe_lower(value)] *)
Definition safe_lower (v : value) : string :=
  match v with
  | VNone => ""
  | _ => lower (py_str v)
  end.

(** [{'count': 0, 'boys': 0, 'girls': 0}] *)
Record Counter : Type := mkCounter { count : Z; boys : Z; girls : Z }.

Definition zero : Counter := mkCounter 0 0 0.

Abbreviation table := (gmap string Counter).
Abbreviation table2 := (gmap string (gmap string Counter)).
Abbreviation relation_map := (gmap string (gset string)).

(** The five accumulators of the pass. *)
Record tables : Type := mkTables {
  byRegion : table;
  byDistrict : table;
  regionYearData : table2;
  districtYearData : table2;
  regionDistrictMap : relation_map
}.

Definition init : tables := mkTables ∅ ∅ ∅ ∅ ∅.

(** The four dimension values of a record (lines 68-71). *)
Definition region_of (r : record) : string :=
  safe_str (get r "Region Name" (get r "Region" (VStr "Unknown"))).
Definition district_of (r : record) : string :=
  safe_str (get r "District Name" (get r "District" (VStr "Unknown"))).
Definition year_of (r : record) : string :=
  py_str (get r "Year" (get r "Periodicity" (VStr "Unknown"))).
Definition gender_of (r : record) : string :=
  safe_lower (get r "Gender" (get r "Gender_x" (VStr ""))).

Definition is_male (gender : string) : bool := mem gender ["male"; "m"; "boy"].
Definition is_female (gender : string) : bool := mem gender ["female"; "f"; "girl"].

(** [c['count'] += 1], then [c['boys'] += 1] if male, elif female
    [c['girls'] += 1]. *)
Definition bump (male female : bool) (c : Counter) : Counter :=
  let c := mkCounter (count c + 1) (boys c) (girls c) in
  if male then mkCounter (count c) (boys c + 1) (girls c)
  else if female then mkCounter (count c) (boys c) (girls c + 1)
  else c.

(** The update of a single-key [defaultdict]: a key missing from the table
    starts from the zero counter. *)
Definition tally (k : string) (male female : bool) (t : table) : table :=
  <[k := bump male female (default zero (t !! k))]> t.

(** The update of a two-key [defaultdict] of [defaultdict]s. *)
Definition tally2 (k y : string) (male female : bool) (t : table2) : table2 :=
  <[k := tally y male female (default ∅ (t !! k))]> t.

(** [if region != 'Unknown' and district != 'Unknown':
       regionDistrictMap[region].add(district)] *)
Definition relate (region district : string) (m : relation_map) : relation_map :=
  if negb (String.eqb region "Unknown") && negb (String.eqb district "Unknown")
  then <[region := default ∅ (m !! region) ∪ {[district]}]> m
  else m.

(** The body of the loop over [all_records] (lines 68-106). *)
Definition process_record (st : tables) (r : record) : tables :=
  let region := region_of r in
  let district := district_of r in
  let year := year_of r in
  let gender := gender_of r in
  let male := is_male gender in
  let female := is_female gender in
  mkTables
    (tally region male female (byRegion st))
    (tally district male female (byDistrict st))
    (tally2 region year male female (regionYearData st))
    (tally2 district year male female (districtYearData st))
    (relate region district (regionDistrictMap st)).

(** The whole pass, from empty accumulators. *)
Definition aggregate (all_records : list record) : tables :=
  fold_left process_record all_records init.

(** *** Flattening the year-keyed input (lines 30-48) *)



(** [if year and 'Year' not in record: record['Year'] = year] *)
Definition inject_year (year : option Z) (r : record) : record :=
  match year, r !! "Year" with
  | Some y, None => <["Year" := VInt y]> r
  | _, _ => r
  end.


(** *** What the tables are read for *)

(** [sum(info[g] for info in t.values())] *)
Definition sum_of (g : Counter -> Z) (t : table) : Z :=
  map_fold (fun _ c acc => g c + acc) 0 t.
Definition total_count : table -> Z := sum_of count.
Definition total_boys : table -> Z := sum_of boys.
Definition total_girls : table -> Z := sum_of girls.

(** [sorted(list(v))]: Python compares texts character by character. *)
Definition sorted (v : gset string) : list string :=
  merge_sort String.le (elements v).

(** [{k: sorted(list(v)) for k, v in regionDistrictMap.items()}] *)
Definition serialize_relation (m : relation_map) : gmap string (list string) :=
  sorted <$> m.

End Aggregate.

(** ** The groups of a pass, read off the records *)

Module Groups.
Import Aggregate.

Definition male (r : record) : bool := is_male (gender_of r).
Definition female (r : record) : bool := is_female (gender_of r).

(** The gender of the record is male-equivalent or female-equivalent. *)
Definition classified (r : record) : bool := male r || female r.

(** The loop as it acts on one accumulator. *)
Definition tally_all (key : record -> string) (rs : list record) (t : table) : table :=
  fold_left (fun t r => tally (key r) (male r) (female r) t) rs t.

Definition tally2_all (key1 key2 : record -> string) (rs : list record) (t : table2)
  : table2 :=
  fold_left (fun t r => tally2 (key1 r) (key2 r) (male r) (female r) t) rs t.

Definition relate_all (rs : list record) (m : relation_map) : relation_map :=
  fold_left (fun m r => relate (region_of r) (district_of r) m) rs m.

(** The records whose key is [k], in input order. *)
Definition group (key : record -> string) (k : string) (rs : list record)
  : list record :=
  filter (fun r => key r = k) rs.

Definition how_many (p : record -> bool) (rs : list record) : Z :=
  Z.of_nat (length (List.filter p rs)).

(** The counter a list of records adds up to. *)
Definition counter_of (rs : list record) : Counter :=
  mkCounter (Z.of_nat (length rs))
            (how_many male rs)
            (how_many (fun r => negb (male r) && female r) rs).

(** The entry of a group in a table: none for a group without records. *)
Definition entry (g : list record) : option Counter :=
  match g with
  | [] => None
  | _ => Some (counter_of g)
  end.

(** The entry of a group in a two-key table: the table of its records by
    the second key. *)
Definition entry2 (key2 : record -> string) (g : list record) : option table :=
  match g with
  | [] => None
  | _ => Some (tally_all key2 g ∅)
  end.

(** The districts seen with a region, both known. *)
Definition seen_with (rs : list record) (region district : string) : Prop :=
  region <> "Unknown" /\ district <> "Unknown" /\
  exists r, r ∈ rs /\ region_of r = region /\ district_of r = district.

(** What the specification asks of a counter and the records behind it. *)
Definition balanced (c : Counter) (g : list record) : Prop :=
  boys c + girls c <= count c /\
  (boys c + girls c = count c <-> forall r, r ∈ g -> classified r = true).

(** Gender classification as the specification words it: lower case and
    trimmed, then looked up in the two sets. *)
Definition spec_normalize (v : value) : string :=
  match v with
  | VNone => ""
  | _ => Text.strip (Text.lower (py_str v))
  end.
Definition spec_is_male (v : value) : bool :=
  Text.mem (spec_normalize v) ["male"; "m"; "boy"].
Definition spec_is_female (v : value) : bool :=
  Text.mem (spec_normalize v) ["female"; "f"; "girl"].

(** The raw region and district values the loop reads (lines 68-69). *)
Definition raw_region (r : record) : value :=
  get r "Region Name" (get r "Region" (VStr "Unknown")).
Definition raw_district (r : record) : value :=
  get r "District Name" (get r "District" (VStr "Unknown")).

(** A value that is null or blank. *)
Definition blank (v : value) : Prop :=
  v = VNone \/ Text.strip (py_str v) = "".

(** The two tables of one dimension agree on a key. *)
Definition years_add_up (c : Counter) (years : table) : Prop :=
  total_count years = count c /\
  total_boys years = boys c /\
  total_girls years = girls c.

(** A district is listed under a region. *)
Definition linked (m : relation_map) (region district : string) : Prop :=
  exists ds, m !! region = Some ds /\ district ∈ ds.

(** Three records of a small input. *)
Definition north_boy : record :=
  {[ "Region" := VStr "North"; "District" := VStr "Agra"; "Gender" := VStr "Male";
     "Year" := VStr "2023" ]}.
Definition north_girl : record :=
  {[ "Region" := VStr "North"; "District" := VStr "Delhi"; "Gender" := VStr "female";
     "Year" := VInt 2023 ]}.
Definition south_boy : record :=
  {[ "Region" := VStr "South"; "Gender" := VStr "boy" ]}.

Definition sample : list record := [north_boy; north_girl; south_boy].




(** A gender written with a trailing blank. *)
Definition padded_male_row : record := {[ "Gender" := VStr "male " ]}.

(** The raw gender value the loop reads (line 71). *)
Definition raw_gender (r : record) : value :=
  get r "Gender" (get r "Gender_x" (VStr "")).

End Groups.

(** ** Persisting into an existing JSON document *)

Module Persist.
Import Aggregate.

(** A parsed JSON document.  An object keeps its keys in order, as a
    Python [dict] does. *)
Inductive json : Type :=
  | JNull
  | JBool (b : bool)
  | JInt (n : Z)
  | JFloat (repr : string)
  | JStr (s : string)
  | JList (items : list json)
  | JObj (fields : list (string * json)).

(** The file at the fixed output path: missing, holding a text that
    [json.load] rejects, or holding a document. *)
Inductive file : Type :=
  | Missing
  | Unparsable (text : string)
  | Document (doc : json).

Inductive error : Type :=
  | FileNotFoundError
  | JSONDecodeError
  | TypeError.

(** A step of a script: from the file before to the file after, with the
    value the step gives or the exception it raises. *)
Definition script (A : Type) : Type := file -> file * (error + A).

Definition ret {A} (a : A) : script A := fun f => (f, inr a).
Definition raise {A} (e : error) : script A := fun f => (f, inl e).
Definition bind {A B} (m : script A) (k : A -> script B) : script B :=
  fun f => match m f with
           | (f', inr a) => k a f'
           | (f', inl e) => (f', inl e)
           end.

Notation "'let*' x ':=' m 'in' k" := (bind m (fun x => k))
  (at level 10, x name, m at level 100, k at level 200, only parsing).

(** [with open(path, 'r') as f: data = json.load(f)] *)
Definition load : script json :=
  fun f => match f with
           | Missing => (f, inl FileNotFoundError)
           | Unparsable _ => (f, inl JSONDecodeError)
           | Document doc => (f, inr doc)
           end.

(** [with open(path, 'w') as f: json.dump(data, f, indent=2)] *)
Definition dump (data : json) : script unit :=
  fun _ => (Document data, inr tt).

(** [d[key] = v] on the fields of an object: the value of an existing key
    is replaced where it stands, a new key goes last. *)
Fixpoint setitem (key : string) (v : json) (d : list (string * json))
  : list (string * json) :=
  match d with
  | [] => [(key, v)]
  | (k, w) :: d' =>
      if String.eqb k key then (key, v) :: d' else (k, w) :: setitem key v d'
  end.

(** [d.get(key)] *)
Fixpoint getitem (key : string) (d : list (string * json)) : option json :=
  match d with
  | [] => None
  | (k, w) :: d' => if String.eqb k key then Some w else getitem key d'
  end.

(** [data[key] = v] on a loaded document: only an object takes a text as
    a key. *)
Definition assign (key : string) (v : json) (data : json) : script json :=
  match data with
  | JObj d => ret (JObj (setitem key v d))
  | _ => raise TypeError
  end.

(** The tables as [json.dump] sees them. *)
Definition json_of_counter (c : Counter) : json :=
  JObj [("count", JInt (count c)); ("boys", JInt (boys c)); ("girls", JInt (girls c))].

Definition json_of_table (t : table) : json :=
  JObj (map (fun kv : string * Counter => (fst kv, json_of_counter (snd kv)))
            (map_to_list t)).

Definition json_of_table2 (t : table2) : json :=
  JObj (map (fun kv : string * table => (fst kv, json_of_table (snd kv)))
            (map_to_list t)).

Definition json_of_relation (m : relation_map) : json :=
  JObj (map (fun kv : string * list string => (fst kv, JList (map JStr (snd kv))))
            (map_to_list (serialize_relation m))).

(** [scripts/add_region_district_data.py], lines 114-129 (and
    [add_region_district_education.py], lines 121-136). *)
Definition update_summary (t : tables) : script unit :=
  let* summary_data := load in
  let* summary_data := assign "byRegion" (json_of_table (byRegion t)) summary_data in
  let* summary_data := assign "byDistrict" (json_of_table (byDistrict t)) summary_data in
  let* summary_data := assign "regionYearData" (json_of_table2 (regionYearData t)) summary_data in
  let* summary_data := assign "districtYearData" (json_of_table2 (districtYearData t)) summary_data in
  let* summary_data := assign "regionDistrictMap" (json_of_relation (regionDistrictMap t)) summary_data in
  dump summary_data.

(** [update_json_with_protection_data] of
    [scripts/analyze_protection_risk.py]: the four values it assigns are
    computed from the data frames and are taken as given here. *)
Definition update_json_with_protection_data
    (protectionVulnerability protectionByRegion protectionByAgeBand
     sampleProtectionCases : json) : script unit :=
  let* data := load in
  let* data := assign "protectionVulnerability" protectionVulnerability data in
  let* data := assign "protectionByRegion" protectionByRegion data in
  let* data := assign "protectionByAgeBand" protectionByAgeBand data in
  let* data := assign "sampleProtectionCases" sampleProtectionCases data in
  dump data.

(** A small document on disk: a total, and a stale region table. *)
Definition old_document : list (string * json) :=
  [("totalRecords", JInt 3); ("byRegion", JNull)].

(** The top-level keys the two steps write. *)
Definition aggregate_keys : list string :=
  ["byRegion"; "byDistrict"; "regionYearData"; "districtYearData";
   "regionDistrictMap"].
Definition protection_keys : list string :=
  ["protectionVulnerability"; "protectionByRegion"; "protectionByAgeBand";
   "sampleProtectionCases"].

End Persist.

(** ** Repairing non-finite numbers: [scripts/fix_json_nan.py] *)

Module NanFix.
Import Text.

(** A word character of a regular expression, on the ASCII range.  Python
    also counts the letters and digits outside that range; where a
    statement gives the exact text a file ends up with, the text is asked to
    be ASCII ([is_ascii] below). *)
Definition is_word (c : ascii) : bool :=
  let n := nat_of_ascii c in
  ((Nat.leb 48 n && Nat.leb n 57) || (Nat.leb 65 n && Nat.leb n 90)
   || (Nat.leb 97 n && Nat.leb n 122) || Nat.eqb n 95)%bool.

Definition is_word_opt (c : option ascii) : bool :=
  match c with Some c => is_word c | None => false end.

(** [\b] between two neighbours (the ends of the text count as not a
    word character). *)
Definition boundary (before after : option ascii) : bool :=
  xorb (is_word_opt before) (is_word_opt after).

Definition first (s : string) : option ascii :=
  match s with String c _ => Some c | EmptyString => None end.

Fixpoint last (s : string) : option ascii :=
  match s with
  | EmptyString => None
  | String c EmptyString => Some c
  | String _ s' => last s'
  end.

Fixpoint drop (n : nat) (s : string) : string :=
  match n, s with
  | S n', String _ s' => drop n' s'
  | _, _ => s
  end.

(** The pattern [\b lit \b] matches at the head of [s], [prev] being the
    character before it. *)
Definition matches_at (lit : string) (prev : option ascii) (s : string) : bool :=
  startswith lit s
  && boundary prev (first lit)
  && boundary (last lit) (first (drop (String.length lit) s)).

(** The scan of [re.sub]: left to right, a match is replaced and the scan
    resumes after it ([skip] counts the matched characters still to pass). *)
Fixpoint scan (lit repl : string) (prev : option ascii) (skip : nat) (s : string)
  : string :=
  match s with
  | EmptyString => EmptyString
  | String c s' =>
      match skip with
      | S k => scan lit repl (Some c) k s'
      | O =>
          if matches_at lit prev s
          then repl ++ scan lit repl (Some c) (String.length lit - 1) s'
          else String c (scan lit repl (Some c) O s')
      end
  end.

(** [re.sub(r'\b' + lit + r'\b', repl, content)] for a literal [lit] that
    is not empty. *)
Definition re_sub (lit repl content : string) : string :=
  scan lit repl None O content.

(** The three substitutions of [fix_json_file], in its order. *)
Definition fix_content (content : string) : string :=
  let content := re_sub "NaN" "null" content in
  let content := re_sub "Infinity" "null" content in
  let content := re_sub "-Infinity" "null" content in
  content.

(** Every character of the text is of the ASCII range, where the word
    characters above are those of Python's [\\b]. *)
Fixpoint is_ascii (s : string) : bool :=
  match s with
  | EmptyString => true
  | String c s' => Nat.ltb (nat_of_ascii c) 128 && is_ascii s'
  end.

(** What a path of the directory holds: a text, or something [open] or
    [read] fails on (bytes that are not UTF-8, a directory, a file that may
    not be read). *)
Inductive stored : Type :=
  | Text (content : string)
  | Unreadable.

(** The directory [public/data]: file name to what is stored. *)
Abbreviation directory := (gmap string stored).

Inductive line : Type :=
  | Fixing (filename : string)
  | StillInvalid (filename : string)
  | Ok (filename : string)
  | Failed (filename : string)
  | AllFixed.

(** What [json.load] does with a text: it returns, it raises
    [json.JSONDecodeError], or it raises something else (a
    [RecursionError] on deep nesting, for one). *)
Inductive verdict : Type :=
  | Parses
  | Rejected
  | Crashes.

(** The exceptions [fix_json_file] lets through: from the first read,
    which is outside its [try], and from [json.load] when it is not a
    [JSONDecodeError]. *)
Inductive exn : Type :=
  | ReadFailed
  | LoadFailed.

(** The state of the script: the directory, the lines printed, and the
    exception that ended it, if any. *)
Record run : Type := mkRun {
  files : directory;
  printed : list line;
  raised : option exn
}.

Section Batch.
Variable json_load : string -> verdict.

(** [fix_json_file(filepath)]: the directory after, the lines printed,
    and the value returned or the exception raised.  The file is written
    back before it is checked. *)
Definition fix_json_file (filename : string) (d : directory)
  : directory * list line * (exn + bool) :=
  match d !! filename with
  | Some (Text content) =>
      let content := fix_content content in
      let d := <[filename := Text content]> d in
      match json_load content with
      | Parses => (d, [], inr true)
      | Rejected => (d, [StillInvalid filename], inr false)
      | Crashes => (d, [], inl LoadFailed)
      end
  | _ => (d, [], inl ReadFailed)
  end.

(** [filename.endswith('.json') and filename != 'schema_analysis.json'] *)
Definition selected (filename : string) : bool :=
  startswith (String.rev ".json") (String.rev filename)
  && negb (String.eqb filename "schema_analysis.json").

(** The body of the loop over [os.listdir(data_dir)]; nothing runs once
    an exception has ended the script. *)
Definition step (st : run) (filename : string) : run :=
  match raised st with
  | Some _ => st
  | None =>
      if selected filename then
        let '(d, lines, result) := fix_json_file filename (files st) in
        let announced := (printed st ++ [Fixing filename] ++ lines)%list in
        match result with
        | inr ok =>
            mkRun d (announced ++ [if ok then Ok filename else Failed filename])%list
                  None
        | inl e => mkRun d announced (Some e)
        end
      else st
  end.

(** The script: every listed file in turn, then the closing line. *)
Definition main (listing : list string) (d : directory) : run :=
  let st := fold_left step listing (mkRun d [] None) in
  match raised st with
  | Some _ => st
  | None => mkRun (files st) (printed st ++ [AllFixed])%list None
  end.

(** A file the script gets through: an ASCII text on which [json.load]
    returns or raises [JSONDecodeError]. *)
Definition well_behaved (d : directory) (filename : string) : Prop :=
  exists content,
    d !! filename = Some (Text content) /\ is_ascii content = true /\
    json_load (fix_content content) <> Crashes.

(** A file the script stops at: missing or unreadable, or a text on which
    [json.load] raises something other than [JSONDecodeError]. *)
Definition fails (d : directory) (filename : string) : Prop :=
  match d !! filename with
  | Some (Text content) => json_load (fix_content content) = Crashes
  | _ => True
  end.

(** The result lines of a file that was got through. *)
Definition result_lines (filename content : string) : list line :=
  match json_load (fix_content content) with
  | Parses => [Ok filename]
  | _ => [StillInvalid filename; Failed filename]
  end.
End Batch.

(** The file a line is about. *)
Definition about (x : line) : option string :=
  match x with
  | Fixing f | StillInvalid f | Ok f | Failed f => Some f
  | AllFixed => None
  end.

End NanFix.

(** ** A small directory and a small parser, for examples *)

Module BatchExamples.
Import Text NanFix.

(** A parser for the examples: only the text [[null]] parses, and a text
    that opens with two brackets is too deep for it. *)
Definition toy_load (content : string) : verdict :=
  if String.eqb content "[null]" then Parses
  else if startswith "[[" content then Crashes
  else Rejected.

Definition toy_directory : directory :=
  {[ "a.json" := Text "[-Infinity]"; "b.json" := Text "[NaN]";
     "schema_analysis.json" := Text "[NaN]" ]}.

Definition toy_listing : list string :=
  ["a.json"; "schema_analysis.json"; "b.json"].

(** A directory whose second file is too deep for the parser. *)
Definition deep_directory : directory :=
  {[ "a.json" := Text "[NaN]"; "b.json" := Text "[[[[NaN]]]]";
     "c.json" := Text "[NaN]" ]}.

End BatchExamples.



(** ** Cohorts and summary counts of the risk analysis
    ([analyze_protection_risks] and [update_json_with_protection_data]) *)

Module RiskReport.
Import Text Risk.

(** The labels of each scorer, in the order its rules are evaluated. *)
Definition marriage_labels : list string :=
  ["Out of school"; "Orphan/Single parent"; "Primary earner ill";
   "Migration/Risk area"; "Missing children in HH"; "BPL/Economic hardship"].
Definition labour_labels : list string :=
  ["Out of school"; "Economic activity"; "Works outside alone"; "Bonded labor";
   "Orphan/Single parent"; "Economic hardship"; "Migration/Risk area";
   "Protection issues"].
Definition trafficking_labels : list string :=
  ["Out of school + Economic activity"; "Out of school"; "Economic activity";
   "Migrant family"; "Child migrated"; "Orphan/Single parent";
   "Economic hardship"; "Trafficking risk (agent migration)";
   "Missing children in HH"].

(** [column == text] on one row: the cell holds exactly that text. *)
Definition cell_is (row : record) (column text : string) : bool :=
  match row !! column with
  | Some (VStr s) => String.eqb s text
  | _ => false
  end.

(** [column.isin(texts)] on one row. *)
Definition cell_in (row : record) (column : string) (texts : list string) : bool :=
  match row !! column with
  | Some (VStr s) => mem s texts
  | _ => false
  end.

(** [labor_df[(labor_df['Gender'] == 'female') &
              (labor_df['Age Band'].isin(['11-14Y', '15-18Y']))]] *)
Definition girls_10_18 (labor_df : list record) : list record :=
  List.filter (fun row => cell_is row "Gender" "female"
                          && cell_in row "Age Band" ["11-14Y"; "15-18Y"]) labor_df.

(** [labor_df[labor_df['Age Band'].isin(['6-10Y', '11-14Y', '15-18Y'])]] *)
Definition children_6_18 (labor_df : list record) : list record :=
  List.filter (fun row => cell_in row "Age Band" ["6-10Y"; "11-14Y"; "15-18Y"])
              labor_df.

(** The score and level columns added to a cohort (lines 271-274, 304-307,
    328-331). *)
Definition scores (calc : record -> acc) (cohort : list record) : list Z :=
  map (fun row => fst (calc row)) cohort.
Definition levels (risk_scores : list Z) : list string :=
  map get_risk_level risk_scores.

(** [int(mask.sum())]: the number of rows a mask holds for. *)
Definition count_where {A} (mask : A -> bool) (column : list A) : Z :=
  Z.of_nat (length (List.filter mask column)).

(** The integer counts written for one category under
    [protectionVulnerability] (lines 369-383); the average and the maximum
    are floats of the data frame and are left out. *)
Record risk_counts : Type := mkRiskCounts {
  totalAtRisk : Z;
  highRisk : Z;
  mediumRisk : Z;
  lowRisk : Z;
  band_0 : Z;
  band_1_24 : Z;
  band_25_49 : Z;
  band_50_plus : Z
}.

Definition count_risks (risk_scores : list Z) : risk_counts :=
  let risk_levels := levels risk_scores in
  mkRiskCounts
    (count_where (fun s => s >? 0) risk_scores)
    (count_where (fun l => String.eqb l "High") risk_levels)
    (count_where (fun l => String.eqb l "Medium") risk_levels)
    (count_where (fun l => String.eqb l "Low") risk_levels)
    (count_where (fun s => s =? 0) risk_scores)
    (count_where (fun s => (s >? 0) && (s <? 25)) risk_scores)
    (count_where (fun s => (s >=? 25) && (s <? 50)) risk_scores)
    (count_where (fun s => s >=? 50) risk_scores).

(** The tests the scorers share. *)
Definition out_of_school (row : record) : bool :=
  contains "drop out" (field row F_enrollment)
  || contains "never enrolled" (field row F_enrollment).
Definition lone_household (row : record) : bool :=
  String.eqb (field row F_single_parent) "yes"
  || String.eqb (field row F_grandparent) "yes"
  || String.eqb (field row F_child_headed) "yes".
Definition child_missing (row : record) : bool :=
  String.eqb (field row F_missing) "yes".

(** The levels from the least to the most severe. *)
Definition severity (level : string) : nat :=
  if String.eqb level "High" then 3
  else if String.eqb level "Medium" then 2
  else if String.eqb level "Low" then 1
  else 0.

End RiskReport.

(** ** More readings of the aggregation pass *)

Module Merging.
Import Aggregate Groups.

(** Counters added field by field. *)
Definition add_counter (a b : Counter) : Counter :=
  mkCounter (count a + count b) (boys a + boys b) (girls a + girls b).

(** The counter under a key, zero when the key is missing. *)
Definition at_key (t : table) (k : string) : Counter := default zero (t !! k).

(** The keys the records give under a dimension. *)
Definition keys_of (key : record -> string) (rs : list record) : gset string :=
  list_to_set (map key rs).




End Merging.

(** ** Assignments to a document, one after the other *)

Module Assignments.
Import Persist.

(** [d[k1] = v1; d[k2] = v2; ...] *)
Definition assign_all (kvs : list (string * json)) (d : list (string * json))
  : list (string * json) :=
  fold_left (fun d kv => setitem (fst kv) (snd kv) d) kvs d.

(** The five assignments of [update_summary]. *)
Definition summary_assignments (t : Aggregate.tables) : list (string * json) :=
  [("byRegion", json_of_table (Aggregate.byRegion t));
   ("byDistrict", json_of_table (Aggregate.byDistrict t));
   ("regionYearData", json_of_table2 (Aggregate.regionYearData t));
   ("districtYearData", json_of_table2 (Aggregate.districtYearData t));
   ("regionDistrictMap", json_of_relation (Aggregate.regionDistrictMap t))].

(** The top-level keys of an object. *)
Definition keys (d : list (string * json)) : list string := map fst d.

End Assignments.

(** ** Cleaning of non-finite floats: [scripts/analyze_excel_data.py] *)

Module Cleaning.
Import Persist.

(** [math.isnan(obj) or math.isinf(obj)], on the text of the float. *)
Definition non_finite (repr : string) : bool :=
  Text.mem repr ["nan"; "inf"; "-inf"].

(** [clean_nan_values(obj)] *)
Fixpoint clean_nan_values (obj : json) : json :=
  match obj with
  | JObj fields =>
      JObj (map (fun kv : string * json => (fst kv, clean_nan_values (snd kv)))
                fields)
  | JList items => JList (map clean_nan_values items)
  | JFloat repr => if non_finite repr then JNull else obj
  | _ => obj
  end.

(** No float of the value, at any depth, is NaN or infinite. *)
Fixpoint all_finite (obj : json) : bool :=
  match obj with
  | JObj fields => forallb (fun kv : string * json => all_finite (snd kv)) fields
  | JList items => forallb all_finite items
  | JFloat repr => negb (non_finite repr)
  | _ => true
  end.

(** The keys of the objects and the lengths of the lists, at every depth. *)
Fixpoint shape (obj : json) : json :=
  match obj with
  | JObj fields =>
      JObj (map (fun kv : string * json => (fst kv, shape (snd kv))) fields)
  | JList items => JList (map shape items)
  | _ => JNull
  end.

End Cleaning.

(** ** Replacing the large files by empty ones: [scripts/quick_fix_data.py] *)

Module QuickFix.
Import Persist.

(** What a file holds: some text, or a document written by [json.dump]. *)
Inductive content : Type :=
  | Raw (text : string)
  | Dumped (doc : json).

Abbreviation files := (gmap string content).

Definition child_annual : json :=
  JObj [("Child_Annual_2023.xlsx_child-annual-information", JList []);
        ("child-annual-information_Report_2024.xlsx_child-annual-information",
         JList [])].
Definition child_education : json :=
  JObj [("Child_education_Consolidated-2023.xlsx_child-education", JList []);
        ("child-education_Consolidated_2024.xlsx_child-education", JList [])].

Definition backup1 := "public/data/child_annual_data_BACKUP.json".
Definition original1 := "public/data/child_annual_data.json".
Definition backup2 := "public/data/child_education_data_BACKUP.json".
Definition original2 := "public/data/child_education_data.json".

(** [os.path.exists(path)] *)
Definition exists_ (fs : files) (path : string) : bool :=
  bool_decide (is_Some (fs !! path)).

(** [os.rename(src, dst)] for a source that exists. *)
Definition rename (src dst : string) (fs : files) : files :=
  match fs !! src with
  | Some c => <[dst := c]> (delete src fs)
  | None => fs
  end.

(** [if not os.path.exists(backup) and os.path.exists(original):
         os.rename(original, backup)]
    then [json.dump(doc, open(original, 'w'))]. *)
Definition replace_by (doc : json) (backup original : string) (fs : files) : files :=
  let fs :=
    if negb (exists_ fs backup) && exists_ fs original
    then rename original backup fs else fs in
  <[original := Dumped doc]> fs.

(** The script: the annual file, then the education file. *)
Definition quick_fix (fs : files) : files :=
  replace_by child_education backup2 original2
    (replace_by child_annual backup1 original1 fs).

End QuickFix.

(** ** State names: [scripts/generate_insights_data.py] *)

Module StateNames.
Import Text.

(** The dictionary [mappings] of [standardize_state_name]. *)
Definition mappings : list (string * string) :=
  [("Jammu & Kashmir", "Jammu and Kashmir");
   ("J&K", "Jammu and Kashmir");
   ("Jammu And Kashmir", "Jammu and Kashmir");
   ("AP", "Andhra Pradesh");
   ("MP", "Madhya Pradesh");
   ("UP", "Uttar Pradesh");
   ("WB", "West Bengal");
   ("TN", "Tamil Nadu");
   ("Orissa", "Odisha");
   ("Mumbai", "Maharashtra")].

(** [mappings.get(name, name)] *)
Fixpoint lookup_or (d : list (string * string)) (name : string) : string -> string :=
  fun default =>
    match d with
    | [] => default
    | (k, v) :: d' => if String.eqb k name then v else lookup_or d' name default
    end.

(** [pd.isna(name) or name is None] on a scalar: [None] and the float NaN. *)
Definition isna (name : value) : bool :=
  match name with
  | VNone => true
  | VFloat r => String.eqb r "nan"
  | _ => false
  end.

Definition standardize_state_name (name : value) : option string :=
  if isna name then None
  else
    let name := strip (py_str name) in
    Some (lookup_or mappings name name).

End StateNames.

(** ** What a repaired text no longer holds *)

Module Repair.
Import Text NanFix.

(** No place of the text [t], read after the character [prev], matches the
    pattern [\b lit \b]. *)
Fixpoint unmatched (lit : string) (prev : option ascii) (t : string) : bool :=
  match t with
  | EmptyString => true
  | String c t' => negb (matches_at lit prev t) && unmatched lit (Some c) t'
  end.

(** Every character of the text is a word character. *)
Fixpoint all_word (s : string) : bool :=
  match s with
  | EmptyString => true
  | String c s' => is_word c && all_word s'
  end.

(** The character occurs in the text. *)
Fixpoint occurs (a : ascii) (s : string) : bool :=
  match s with
  | EmptyString => false
  | String c s' => (if ascii_dec a c then true else false) || occurs a s'
  end.

(** The last character of [s], or [prev] when [s] is empty. *)
Definition last_or (prev : option ascii) (s : string) : option ascii :=
  match last s with
  | Some c => Some c
  | None => prev
  end.

End Repair.

(** * Properties *)

Local Open Scope list_scope.

(** ** Texts *)

Section TextFacts.
Import Text.

Lemma startswith_lower p s :
  startswith p s = true -> startswith (lower p) (lower s) = true.
Proof.
  revert s. induction p as [|a p IH]; intros [|b s]; simpl; try done.
  destruct (ascii_dec a b) as [->|]; [|done].
  intros H. destruct (ascii_dec (lower_ascii b) (lower_ascii b)); [auto|done].
Qed.

Lemma contains_lower p s :
  contains p s = true -> contains (lower p) (lower s) = true.
Proof.
  induction s as [|c s IH]; simpl.
  - rewrite !orb_false_r. apply (startswith_lower p "").
  - intros [H|H]%orb_true_iff; apply orb_true_iff.
    + left. apply (startswith_lower p (String c s) H).
    + right. auto.
Qed.

Lemma mem_true s l : mem s l = true <-> s ∈ l.
Proof. unfold mem. apply bool_decide_eq_true. Qed.

Lemma eqb_false_of_ne (s t : string) : s <> t -> String.eqb s t = false.
Proof. apply String.eqb_neq. Qed.
End TextFacts.

(** ** Risk scorer *)

Section RiskFacts.
Import Text Risk.

Lemma hit_fst pts label st : fst (hit pts label st) = fst st + pts.
Proof. reflexivity. Qed.

Lemma finish_range st : 0 <= fst st -> 0 <= fst (finish st) <= 100.
Proof. unfold finish; simpl. lia. Qed.

(** Every rule leaves the score where it was or adds a positive weight. *)
Ltac rules :=
  repeat match goal with
         | |- context [if ?c then _ else _] => destruct c
         end;
  rewrite ?hit_fst; simpl; lia.

Lemma marriage_score_nonneg row :
  0 <= fst (calc_child_marriage_risk row) <= 100.
Proof. unfold calc_child_marriage_risk. apply finish_range. rules. Qed.

Lemma labour_score_nonneg row :
  0 <= fst (calc_child_labour_risk row) <= 100.
Proof. unfold calc_child_labour_risk. apply finish_range. rules. Qed.

Lemma trafficking_score_nonneg row :
  0 <= fst (calc_child_trafficking_risk row) <= 100.
Proof. unfold calc_child_trafficking_risk. apply finish_range. rules. Qed.

Lemma level_high score : 50 <= score -> get_risk_level score = "High".
Proof. unfold get_risk_level. intros. destruct (Z.geb_spec score 50); [done|lia]. Qed.

Lemma level_medium score : 25 <= score < 50 -> get_risk_level score = "Medium".
Proof.
  unfold get_risk_level. intros.
  destruct (Z.geb_spec score 50); [lia|].
  destruct (Z.geb_spec score 25); [done|lia].
Qed.

Lemma level_low score : 0 < score < 25 -> get_risk_level score = "Low".
Proof.
  unfold get_risk_level. intros.
  destruct (Z.geb_spec score 50); [lia|].
  destruct (Z.geb_spec score 25); [lia|].
  destruct (Z.gtb_spec score 0); [done|lia].
Qed.

Lemma level_minimal score : score <= 0 -> get_risk_level score = "Minimal".
Proof.
  unfold get_risk_level. intros.
  destruct (Z.geb_spec score 50); [lia|].
  destruct (Z.geb_spec score 25); [lia|].
  destruct (Z.gtb_spec score 0); [lia|done].
Qed.

(** C1. For every record each of the three scorers (child marriage, child
    labour, child trafficking) gives a score between 0 and 100, both
    included, and the level is read off the score alone: High from 50 up,
    Medium from 25 to 49, Low from 1 to 24, Minimal at 0. *)
Theorem risk_score_range_and_level :
  (forall row : record,
      0 <= fst (calc_child_marriage_risk row) <= 100 /\
      0 <= fst (calc_child_labour_risk row) <= 100 /\
      0 <= fst (calc_child_trafficking_risk row) <= 100) /\
  (forall score : Z,
      (50 <= score -> get_risk_level score = "High") /\
      (25 <= score < 50 -> get_risk_level score = "Medium") /\
      (0 < score < 25 -> get_risk_level score = "Low") /\
      (score = 0 -> get_risk_level score = "Minimal")).
Proof.
  split.
  - intros row. auto using marriage_score_nonneg, labour_score_nonneg,
      trafficking_score_nonneg.
  - intros score. repeat split.
    + apply level_high.
    + apply level_medium.
    + apply level_low.
    + intros ->. reflexivity.
Qed.

Lemma risk_score_range_and_level_witness :
  0 <= fst (calc_child_trafficking_risk drop_out_row) <= 100 /\
  get_risk_level 0 = "Minimal" /\ get_risk_level 1 = "Low" /\
  get_risk_level 24 = "Low" /\ get_risk_level 25 = "Medium" /\
  get_risk_level 49 = "Medium" /\ get_risk_level 50 = "High" /\
  get_risk_level 100 = "High".
Proof.
  destruct risk_score_range_and_level as [Hscore Hlevel].
  split; [apply (Hscore drop_out_row)|].
  split; [apply (Hlevel 0); reflexivity|].
  split; [apply (Hlevel 1); lia|].
  split; [apply (Hlevel 24); lia|].
  split; [apply (Hlevel 25); lia|].
  split; [apply (Hlevel 49); lia|].
  split; [apply (Hlevel 50); lia|].
  apply (Hlevel 100); lia.
Defined.

Lemma quiet_test row key test :
  test "" = false -> quiet row key test -> test (field row key) = false.
Proof.
  intros Hd [Habs|H]; [|done].
  unfold field, get. rewrite Habs. exact Hd.
Qed.

(** C8. A record whose enrollment status contains "Drop Out" and whose
    single-parent flag is "Yes", the other scored columns being absent or
    not firing, gets child-marriage score 35 (20 + 15) with the factors in
    rule order, and 35 is level Medium. *)
Theorem marriage_drop_out_single_parent (row : record) (status : string) :
  row !! F_enrollment = Some (VStr status) ->
  contains "Drop Out" status = true ->
  row !! F_single_parent = Some (VStr "Yes") ->
  quiet row F_earner_ill (fun s => String.eqb s "yes") ->
  quiet row F_migrated (contains "yes") ->
  quiet row F_hh_migrates (fun s => String.eqb s "yes") ->
  quiet row F_missing (fun s => String.eqb s "yes") ->
  quiet row F_ration (fun s => contains "below poverty" s || contains "no ration" s) ->
  calc_child_marriage_risk row = (35, ["Out of school"; "Orphan/Single parent"]) /\
  get_risk_level (fst (calc_child_marriage_risk row)) = "Medium".
Proof.
  intros Hen Hdrop Hsp Hill Hmig Hhh Hmiss Hrat.
  assert (Hscore : calc_child_marriage_risk row
                   = (35, ["Out of school"; "Orphan/Single parent"])).
  { unfold calc_child_marriage_risk.
    assert (E1 : contains "drop out" (field row F_enrollment) = true).
    { unfold field, get. rewrite Hen. apply (contains_lower "Drop Out"), Hdrop. }
    assert (E2 : field row F_single_parent = "yes").
    { unfold field, get. rewrite Hsp. reflexivity. }
    rewrite E1, E2.
    rewrite (quiet_test _ _ _ eq_refl Hill), (quiet_test _ _ _ eq_refl Hmig),
      (quiet_test _ _ _ eq_refl Hhh), (quiet_test _ _ _ eq_refl Hmiss).
    pose proof (quiet_test _ _ _ eq_refl Hrat) as E3. simpl in E3.
    rewrite E3. reflexivity. }
  rewrite Hscore. split; reflexivity.
Qed.

Lemma marriage_drop_out_single_parent_witness :
  calc_child_marriage_risk drop_out_row
    = (35, ["Out of school"; "Orphan/Single parent"]) /\
  get_risk_level (fst (calc_child_marriage_risk drop_out_row)) = "Medium".
Proof.
  apply (marriage_drop_out_single_parent drop_out_row "Drop Out");
    try reflexivity; left; reflexivity.
Defined.

End RiskFacts.

(** ** Aggregator *)

Section CounterFacts.
Import Aggregate Groups.

Lemma how_many_app p l1 l2 : how_many p (l1 ++ l2) = how_many p l1 + how_many p l2.
Proof. unfold how_many. rewrite List.filter_app, length_app. lia. Qed.

Lemma how_many_le p l : 0 <= how_many p l <= Z.of_nat (length l).
Proof.
  unfold how_many. induction l as [|x l IH]; simpl; [lia|].
  destruct (p x); simpl; lia.
Qed.

Lemma how_many_all p l :
  how_many p l = Z.of_nat (length l) <-> forall x, x ∈ l -> p x = true.
Proof.
  induction l as [|x l IH].
  - split; [intros _ y Hy; by apply elem_of_nil in Hy|reflexivity].
  - pose proof (how_many_le p l) as Hle. unfold how_many in *. simpl.
    destruct (p x) eqn:Hx; simpl.
    + split.
      * intros H y [->|Hy]%elem_of_cons; [done|]. apply IH; [lia|done].
      * intros H. cut (Z.of_nat (length (List.filter p l)) = Z.of_nat (length l)); [lia|].
        apply IH. intros y Hy. apply H, elem_of_cons. by right.
    + split; [lia|]. intros H. specialize (H x). rewrite Hx in H.
      discriminate H. apply elem_of_cons. by left.
Qed.

Lemma male_not_female r : male r = true -> female r = false.
Proof.
  unfold male, female, is_male. rewrite mem_true, !elem_of_cons, elem_of_nil.
  intros [->|[->|[->|[]]]]; reflexivity.
Qed.

Lemma how_many_classified l :
  how_many male l + how_many (fun r => negb (male r) && female r) l
  = how_many classified l.
Proof.
  unfold how_many, classified. induction l as [|x l IH]; simpl; [done|].
  destruct (male x), (female x); simpl; lia.
Qed.

Lemma counter_of_balanced g : balanced (counter_of g) g.
Proof.
  unfold balanced, counter_of; simpl. rewrite how_many_classified.
  split; [apply how_many_le|apply how_many_all].
Qed.

Lemma counter_of_snoc l r :
  counter_of (l ++ [r]) = bump (male r) (female r) (counter_of l).
Proof.
  unfold counter_of, bump. rewrite !how_many_app, length_app. unfold how_many; simpl.
  destruct (male r), (female r); simpl; f_equal; lia.
Qed.

Lemma default_entry g : default zero (entry g) = counter_of g.
Proof. by destruct g. Qed.

Lemma entry_snoc g r : entry (g ++ [r]) = Some (counter_of (g ++ [r])).
Proof. by destruct g. Qed.

End CounterFacts.

Section TableFacts.
Import Aggregate Groups.

Lemma aggregate_fields rs st :
  fold_left process_record rs st
  = mkTables (tally_all region_of rs (byRegion st))
             (tally_all district_of rs (byDistrict st))
             (tally2_all region_of year_of rs (regionYearData st))
             (tally2_all district_of year_of rs (districtYearData st))
             (relate_all rs (regionDistrictMap st)).
Proof.
  revert st. induction rs as [|r rs IH]; intros st; simpl.
  - by destruct st.
  - rewrite IH. reflexivity.
Qed.

Lemma aggregate_tables rs :
  aggregate rs
  = mkTables (tally_all region_of rs ∅) (tally_all district_of rs ∅)
             (tally2_all region_of year_of rs ∅)
             (tally2_all district_of year_of rs ∅)
             (relate_all rs ∅).
Proof. apply aggregate_fields. Qed.

Lemma tally_all_snoc key l r t :
  tally_all key (l ++ [r]) t
  = tally (key r) (male r) (female r) (tally_all key l t).
Proof. unfold tally_all. by rewrite fold_left_app. Qed.

Lemma tally2_all_snoc key1 key2 l r t :
  tally2_all key1 key2 (l ++ [r]) t
  = tally2 (key1 r) (key2 r) (male r) (female r) (tally2_all key1 key2 l t).
Proof. unfold tally2_all. by rewrite fold_left_app. Qed.

Lemma group_snoc key k l r :
  group key k (l ++ [r])
  = group key k l ++ (if decide (key r = k) then [r] else []).
Proof.
  unfold group. rewrite filter_app. f_equal.
Qed.

(** A single-key table holds, under each key, the counter of the records
    of that key, and no entry for a key without records. *)
Lemma tally_all_lookup key rs k :
  tally_all key rs ∅ !! k = entry (group key k rs).
Proof.
  induction rs as [|r rs IH] using rev_ind; [apply lookup_empty|].
  rewrite tally_all_snoc, group_snoc. unfold tally.
  destruct (decide (key r = k)) as [->|Hne].
  - rewrite lookup_insert_eq, IH, default_entry, entry_snoc, counter_of_snoc.
    reflexivity.
  - rewrite lookup_insert_ne, app_nil_r by done. exact IH.
Qed.

(** A two-key table holds, under each first key, the single-key table of
    the records of that key. *)
Lemma tally2_all_lookup key1 key2 rs k :
  tally2_all key1 key2 rs ∅ !! k = entry2 key2 (group key1 k rs).
Proof.
  induction rs as [|r rs IH] using rev_ind; [apply lookup_empty|].
  rewrite tally2_all_snoc, group_snoc. unfold tally2.
  destruct (decide (key1 r = k)) as [<-|Hne].
  - rewrite lookup_insert_eq, IH.
    assert (E : default ∅ (entry2 key2 (group key1 (key1 r) rs))
                = tally_all key2 (group key1 (key1 r) rs) ∅)
      by (by destruct (group key1 (key1 r) rs)).
    rewrite E, <- tally_all_snoc. by destruct (group key1 (key1 r) rs).
  - rewrite lookup_insert_ne, app_nil_r by done. exact IH.
Qed.

Lemma elem_of_group key k rs r : r ∈ group key k rs <-> key r = k /\ r ∈ rs.
Proof. unfold group. by rewrite list_elem_of_filter. Qed.

(** *** Sums over a table *)

Section Sums.
Variable g : Counter -> Z.
Hypothesis g_zero : g zero = 0.
Hypothesis g_bump : forall m f c, g (bump m f c) = g c + g (bump m f zero).

Lemma sum_of_empty : sum_of g ∅ = 0.
Proof. apply map_fold_empty. Qed.

Lemma sum_of_fresh (t : table) k c :
  t !! k = None -> sum_of g (<[k := c]> t) = g c + sum_of g t.
Proof.
  intros Hk. unfold sum_of.
  rewrite (map_fold_insert_L (fun _ c acc => g c + acc)); [done| |done].
  intros. lia.
Qed.

Lemma sum_of_insert (t : table) k c :
  sum_of g (<[k := c]> t) = sum_of g t + g c - from_option g 0 (t !! k).
Proof.
  destruct (t !! k) as [c0|] eqn:Hk; simpl.
  - rewrite <- (insert_delete_eq t), sum_of_fresh by apply lookup_delete_eq.
    rewrite <- (insert_delete_id t k c0) at 2 by done.
    rewrite sum_of_fresh by apply lookup_delete_eq. lia.
  - rewrite sum_of_fresh by done. lia.
Qed.

Lemma sum_of_tally k m f (t : table) :
  sum_of g (tally k m f t) = sum_of g t + g (bump m f zero).
Proof.
  unfold tally. rewrite sum_of_insert, g_bump.
  destruct (t !! k); simpl; [lia|]. rewrite g_zero. lia.
Qed.

(** Summed over all keys, a table gives back the counter of all records. *)
Lemma sum_of_tally_all key rs : sum_of g (tally_all key rs ∅) = g (counter_of rs).
Proof.
  induction rs as [|r rs IH] using rev_ind.
  - change (tally_all key [] ∅) with (∅ : table).
    rewrite sum_of_empty. symmetry. exact g_zero.
  - rewrite tally_all_snoc, sum_of_tally, IH, counter_of_snoc.
    symmetry. apply g_bump.
Qed.
End Sums.

Lemma count_bump m f c : count (bump m f c) = count c + count (bump m f zero).
Proof. unfold bump. destruct m, f; simpl; lia. Qed.
Lemma boys_bump m f c : boys (bump m f c) = boys c + boys (bump m f zero).
Proof. unfold bump. destruct m, f; simpl; lia. Qed.
Lemma girls_bump m f c : girls (bump m f c) = girls c + girls (bump m f zero).
Proof. unfold bump. destruct m, f; simpl; lia. Qed.

Lemma total_count_tally_all key rs :
  total_count (tally_all key rs ∅) = Z.of_nat (length rs).
Proof. apply (sum_of_tally_all count eq_refl count_bump). Qed.

Lemma totals_tally_all key rs :
  total_count (tally_all key rs ∅) = count (counter_of rs) /\
  total_boys (tally_all key rs ∅) = boys (counter_of rs) /\
  total_girls (tally_all key rs ∅) = girls (counter_of rs).
Proof.
  split; [|split].
  - apply (sum_of_tally_all count eq_refl count_bump).
  - apply (sum_of_tally_all boys eq_refl boys_bump).
  - apply (sum_of_tally_all girls eq_refl girls_bump).
Qed.

End TableFacts.

Section AggregateClaims.
Import Text Aggregate Groups.

Lemma entry_Some g c : entry g = Some c -> c = counter_of g.
Proof. destruct g; simpl; congruence. Qed.

Lemma entry2_Some key2 g years :
  entry2 key2 g = Some years -> years = tally_all key2 g ∅.
Proof. destruct g; simpl; congruence. Qed.

Lemma entry2_of_entry key2 g c :
  entry g = Some c -> entry2 key2 g = Some (tally_all key2 g ∅).
Proof. by destruct g. Qed.

Lemma safe_str_blank v : blank v -> safe_str v = "Unknown".
Proof.
  intros [->|H]; [done|]. unfold safe_str. rewrite H. by destruct v.
Qed.

(** C2. After the pass the counts of [byRegion] add up to the number of
    records, and so do those of [byDistrict]; a record whose region
    (district) is absent under both names, null or blank is counted under
    "Unknown". *)
Theorem counts_add_up_to_records (rs : list record) :
  total_count (byRegion (aggregate rs)) = Z.of_nat (length rs) /\
  total_count (byDistrict (aggregate rs)) = Z.of_nat (length rs) /\
  (forall r : record,
      (r !! "Region Name" = None -> r !! "Region" = None ->
       region_of r = "Unknown") /\
      (blank (raw_region r) -> region_of r = "Unknown") /\
      (r !! "District Name" = None -> r !! "District" = None ->
       district_of r = "Unknown") /\
      (blank (raw_district r) -> district_of r = "Unknown")).
Proof.
  rewrite aggregate_tables; simpl.
  split; [apply total_count_tally_all|].
  split; [apply total_count_tally_all|].
  intros r. repeat split.
  - intros H1 H2. unfold region_of, get. by rewrite H1, H2.
  - apply safe_str_blank.
  - intros H1 H2. unfold district_of, get. by rewrite H1, H2.
  - apply safe_str_blank.
Qed.

(** C3. In each of the four tables, every group has
    [boys + girls <= count], with equality exactly when every record of the
    group has a male-equivalent or female-equivalent gender. *)
Theorem boys_girls_within_count (rs : list record) :
  (forall k c, byRegion (aggregate rs) !! k = Some c ->
               balanced c (group region_of k rs)) /\
  (forall k c, byDistrict (aggregate rs) !! k = Some c ->
               balanced c (group district_of k rs)) /\
  (forall k y years c,
      regionYearData (aggregate rs) !! k = Some years -> years !! y = Some c ->
      balanced c (group year_of y (group region_of k rs))) /\
  (forall k y years c,
      districtYearData (aggregate rs) !! k = Some years -> years !! y = Some c ->
      balanced c (group year_of y (group district_of k rs))).
Proof.
  rewrite aggregate_tables; simpl. split; [|split; [|split]].
  - intros k c H. rewrite tally_all_lookup in H.
    apply entry_Some in H as ->. apply counter_of_balanced.
  - intros k c H. rewrite tally_all_lookup in H.
    apply entry_Some in H as ->. apply counter_of_balanced.
  - intros k y years c H Hy. rewrite tally2_all_lookup in H.
    apply entry2_Some in H as ->. rewrite tally_all_lookup in Hy.
    apply entry_Some in Hy as ->. apply counter_of_balanced.
  - intros k y years c H Hy. rewrite tally2_all_lookup in H.
    apply entry2_Some in H as ->. rewrite tally_all_lookup in Hy.
    apply entry_Some in Hy as ->. apply counter_of_balanced.
Qed.

Lemma years_add_up_group key1 key2 rs k c :
  tally_all key1 rs ∅ !! k = Some c ->
  exists years, tally2_all key1 key2 rs ∅ !! k = Some years /\ years_add_up c years.
Proof.
  rewrite tally_all_lookup, tally2_all_lookup. intros H.
  exists (tally_all key2 (group key1 k rs) ∅). split.
  - by apply entry2_of_entry with c.
  - apply entry_Some in H as ->. apply totals_tally_all.
Qed.

Lemma same_keys key1 key2 rs :
  dom (tally2_all key1 key2 rs ∅) = dom (tally_all key1 rs ∅).
Proof.
  apply set_eq. intros k.
  rewrite !elem_of_dom, tally_all_lookup, tally2_all_lookup.
  destruct (group key1 k rs); simpl; split; intros [? ?]; eauto; discriminate.
Qed.

(** C10. After the pass the year tables and the single-key tables agree:
    under every region the counts, boys and girls of [regionYearData],
    summed over the years, are those of [byRegion]; likewise for the
    districts; and the tables of a dimension have the same keys. *)
Theorem year_tables_agree (rs : list record) :
  (forall k c, byRegion (aggregate rs) !! k = Some c ->
     exists years, regionYearData (aggregate rs) !! k = Some years /\
                   years_add_up c years) /\
  (forall k c, byDistrict (aggregate rs) !! k = Some c ->
     exists years, districtYearData (aggregate rs) !! k = Some years /\
                   years_add_up c years) /\
  dom (regionYearData (aggregate rs)) = dom (byRegion (aggregate rs)) /\
  dom (districtYearData (aggregate rs)) = dom (byDistrict (aggregate rs)).
Proof.
  rewrite aggregate_tables; simpl.
  split; [intros k c; apply years_add_up_group|].
  split; [intros k c; apply years_add_up_group|].
  split; apply same_keys.
Qed.

Lemma counts_add_up_to_records_witness :
  total_count (byRegion (aggregate sample)) = 3 /\
  total_count (byDistrict (aggregate sample)) = 3 /\
  district_of south_boy = "Unknown".
Proof.
  destruct (counts_add_up_to_records sample) as (Hr & Hd & Hu).
  split; [exact Hr|]. split; [exact Hd|].
  destruct (Hu south_boy) as (_ & _ & Habsent & _).
  apply Habsent; reflexivity.
Defined.

Lemma boys_girls_within_count_witness :
  byRegion (aggregate (padded_male_row :: sample)) !! "North"
  = Some (mkCounter 2 1 1) /\
  balanced (mkCounter 2 1 1) (group region_of "North" (padded_male_row :: sample)) /\
  byRegion (aggregate (padded_male_row :: sample)) !! "Unknown"
  = Some (mkCounter 1 0 0) /\
  balanced (mkCounter 1 0 0) (group region_of "Unknown" (padded_male_row :: sample)).
Proof.
  destruct (boys_girls_within_count (padded_male_row :: sample)) as (Hr & _).
  split; [vm_compute; reflexivity|].
  split; [apply Hr; vm_compute; reflexivity|].
  split; [vm_compute; reflexivity|].
  apply Hr; vm_compute; reflexivity.
Defined.

Lemma year_tables_agree_witness :
  byRegion (aggregate sample) !! "North" = Some (mkCounter 2 1 1) /\
  exists years, regionYearData (aggregate sample) !! "North" = Some years /\
                years_add_up (mkCounter 2 1 1) years.
Proof.
  destruct (year_tables_agree sample) as (Hr & _).
  split; [vm_compute; reflexivity|].
  apply Hr; vm_compute; reflexivity.
Defined.

End AggregateClaims.

Section GenderAndYear.
Import Text Aggregate Groups.

(** C4, as the specification words it, fails: a gender written with a
    trailing blank is male-equivalent once trimmed, but the pass does not
    trim and counts the record under neither boys nor girls. *)
Lemma gender_is_not_trimmed :
  spec_is_male (raw_gender padded_male_row) = true /\
  is_male (gender_of padded_male_row) = false /\
  is_female (gender_of padded_male_row) = false /\
  byRegion (aggregate [padded_male_row]) !! "Unknown" = Some (mkCounter 1 0 0).
Proof. vm_compute. repeat split; reflexivity. Qed.

Lemma bump_cases m f c :
  bump m f c
  = mkCounter (count c + 1)
              (boys c + (if m then 1 else 0))
              (girls c + (if negb m && f then 1 else 0)).
Proof. unfold bump. destruct m, f; simpl; f_equal; lia. Qed.

(** C4 (amended). The raw gender is lowered, not trimmed ([None] reads as
    the empty text); it is male-equivalent exactly when the lowered text is
    one of male, m, boy, female-equivalent exactly when it is one of female,
    f, girl; every table of the pass moves its counter by [bump], which for
    any other text, the empty one included, adds to [count] only. *)
Theorem gender_classification (r : record) :
  gender_of r = safe_lower (raw_gender r) /\
  (raw_gender r = VNone -> gender_of r = "") /\
  (forall s, raw_gender r = VStr s -> gender_of r = lower s) /\
  (male r = true <->
   gender_of r = "male" \/ gender_of r = "m" \/ gender_of r = "boy") /\
  (female r = true <->
   gender_of r = "female" \/ gender_of r = "f" \/ gender_of r = "girl") /\
  (r !! "Gender" = None -> r !! "Gender_x" = None -> classified r = false) /\
  (forall st : tables,
      byRegion (process_record st r)
      = tally (region_of r) (male r) (female r) (byRegion st) /\
      byDistrict (process_record st r)
      = tally (district_of r) (male r) (female r) (byDistrict st) /\
      regionYearData (process_record st r)
      = tally2 (region_of r) (year_of r) (male r) (female r) (regionYearData st) /\
      districtYearData (process_record st r)
      = tally2 (district_of r) (year_of r) (male r) (female r)
               (districtYearData st)) /\
  (forall c : Counter,
      (male r = true ->
       bump (male r) (female r) c = mkCounter (count c + 1) (boys c + 1) (girls c)) /\
      (female r = true ->
       bump (male r) (female r) c = mkCounter (count c + 1) (boys c) (girls c + 1)) /\
      (classified r = false ->
       bump (male r) (female r) c = mkCounter (count c + 1) (boys c) (girls c))).
Proof.
  split; [reflexivity|].
  split; [intros H; unfold gender_of; fold (raw_gender r); by rewrite H|].
  split; [intros s H; unfold gender_of; fold (raw_gender r); by rewrite H|].
  split.
  { unfold male, is_male. rewrite mem_true, !elem_of_cons, elem_of_nil. tauto. }
  split.
  { unfold female, is_female. rewrite mem_true, !elem_of_cons, elem_of_nil. tauto. }
  split.
  { intros H1 H2. unfold classified, male, female, gender_of, get.
    rewrite H1, H2. reflexivity. }
  split; [intros st; repeat split|].
  intros c. rewrite bump_cases. split; [|split].
  - intros Hm. rewrite Hm. simpl. f_equal; lia.
  - intros Hf. destruct (male r) eqn:Hm.
    + apply male_not_female in Hm. congruence.
    + rewrite Hf. simpl. f_equal; lia.
  - unfold classified. intros [Hm Hf]%orb_false_iff. rewrite Hm, Hf. simpl.
    f_equal; lia.
Qed.




Lemma gender_classification_witness :
  male north_boy = true /\
  bump (male north_boy) (female north_boy) zero = mkCounter 1 1 0 /\
  classified padded_male_row = false /\
  bump (male padded_male_row) (female padded_male_row) zero = mkCounter 1 0 0 /\
  classified south_boy = true /\ classified ∅ = false.
Proof.
  destruct (gender_classification north_boy) as (_ & _ & _ & Hm & _ & _ & _ & Hb).
  destruct (gender_classification padded_male_row) as (_ & _ & _ & _ & _ & _ & _ & Hp).
  destruct (gender_classification ∅) as (_ & _ & _ & _ & _ & He & _).
  assert (M : male north_boy = true) by (apply Hm; left; reflexivity).
  split; [exact M|].
  split; [apply (Hb zero), M|].
  split; [reflexivity|].
  split; [apply (Hp zero); reflexivity|].
  split; [reflexivity|].
  apply He; reflexivity.
Defined.


(** The year put on a record by the flattening is read back as its key. *)
Lemma injected_year_key (r : record) (y : Z) :
  r !! "Year" = None -> year_of (inject_year (Some y) r) = pretty y.
Proof.
  intros H. unfold inject_year. rewrite H. unfold year_of, get.
  by rewrite lookup_insert_eq.
Qed.

(** A "Year" that is present but null is not replaced: the key is the
    text "None". *)
Lemma null_year_is_kept (r : record) :
  r !! "Year" = Some VNone -> year_of r = "None".
Proof. intros H. unfold year_of, get. by rewrite H. Qed.

End GenderAndYear.

(** ** Region to districts *)

Section RelationFacts.
Import Text Aggregate Groups.

Lemma relate_all_snoc l r m :
  relate_all (l ++ [r]) m = relate (region_of r) (district_of r) (relate_all l m).
Proof. unfold relate_all. by rewrite fold_left_app. Qed.

(** Two additions may be done in either order. *)
Lemma relate_comm r1 d1 r2 d2 (m : relation_map) :
  relate r1 d1 (relate r2 d2 m) = relate r2 d2 (relate r1 d1 m).
Proof.
  unfold relate.
  destruct (negb (r1 =? "Unknown")%string && negb (d1 =? "Unknown")%string);
    destruct (negb (r2 =? "Unknown")%string && negb (d2 =? "Unknown")%string);
    try reflexivity.
  destruct (decide (r1 = r2)) as [->|Hne].
  - rewrite !lookup_insert_eq, !insert_insert_eq. simpl. f_equal.
    apply set_eq. intros x. rewrite !elem_of_union. tauto.
  - rewrite !lookup_insert_ne by done. by apply insert_insert_ne.
Qed.

Lemma relate_all_permutation rs rs' (m : relation_map) :
  rs ≡ₚ rs' -> relate_all rs m = relate_all rs' m.
Proof.
  intros Hp. revert m.
  induction Hp as [|r l l' _ IH|r1 r2 l|l1 l2 l3 _ IH1 _ IH2]; intros m; simpl.
  - reflexivity.
  - apply IH.
  - unfold relate_all; simpl. by rewrite relate_comm.
  - by rewrite IH1.
Qed.

Lemma linked_empty region district : ~ linked ∅ region district.
Proof. intros (ds & H & _). by rewrite lookup_empty in H. Qed.

Lemma linked_relate r d (m : relation_map) region district :
  linked (relate r d m) region district
  <-> linked m region district
      \/ (r = region /\ d = district /\ r <> "Unknown" /\ d <> "Unknown").
Proof.
  unfold relate, linked.
  destruct (String.eqb_spec r "Unknown") as [Hr|Hr]; simpl.
  { split; [by left|]. intros [H|(_ & _ & ? & _)]; [done|congruence]. }
  destruct (String.eqb_spec d "Unknown") as [Hd|Hd]; simpl.
  { split; [by left|]. intros [H|(_ & _ & _ & ?)]; [done|congruence]. }
  destruct (decide (r = region)) as [->|Hne].
  - rewrite lookup_insert_eq. split.
    + intros (ds & [= <-] & Hin). apply elem_of_union in Hin as [Hin|Hin].
      * left. destruct (m !! region) as [ds0|]; simpl in Hin; [eauto|].
        by apply not_elem_of_empty in Hin.
      * apply elem_of_singleton in Hin as ->. by right.
    + intros [(ds & Hm & Hin)|(_ & -> & _)].
      * eexists. split; [reflexivity|]. rewrite Hm; simpl.
        apply elem_of_union. by left.
      * eexists. split; [reflexivity|].
        apply elem_of_union. right. by apply elem_of_singleton.
  - rewrite lookup_insert_ne by done. split; [by left|].
    intros [H|(? & _)]; [done|congruence].
Qed.

(** A district is listed under a region exactly when some record carries
    the two, neither of them "Unknown". *)
Lemma linked_relate_all rs region district :
  linked (relate_all rs ∅) region district <-> seen_with rs region district.
Proof.
  unfold seen_with. induction rs as [|r rs IH] using rev_ind.
  - split; [intros H; by apply linked_empty in H|].
    intros (_ & _ & r & Hr & _). by apply elem_of_nil in Hr.
  - rewrite relate_all_snoc, linked_relate, IH. split.
    + intros [(? & ? & r0 & Hin & ? & ?)|(<- & <- & ? & ?)].
      * repeat split; try done. exists r0. rewrite elem_of_app. auto.
      * repeat split; try done. exists r. rewrite elem_of_app.
        split; [right; by apply list_elem_of_singleton|done].
    + intros (Hr & Hd & r0 & Hin & Hreg & Hdis).
      apply elem_of_app in Hin as [Hin|Hin].
      * left. eauto 10.
      * apply list_elem_of_singleton in Hin as ->. right.
        subst region district. auto.
Qed.

Lemma sorted_spec (v : gset string) :
  StronglySorted String.le (sorted v) /\ NoDup (sorted v) /\
  forall d, d ∈ sorted v <-> d ∈ v.
Proof.
  unfold sorted. split; [|split].
  - apply (StronglySorted_merge_sort _).
  - rewrite merge_sort_Permutation. apply NoDup_elements.
  - intros d. rewrite merge_sort_Permutation. apply elem_of_elements.
Qed.

(** C6. The region-to-districts map does not depend on the order of the
    records; a district is listed under a region exactly when some record
    has that region and that district, both other than "Unknown"; and each
    region's districts are written out sorted and without duplicates. *)
Theorem relation_map_order_independent (rs rs' : list record) :
  rs ≡ₚ rs' ->
  regionDistrictMap (aggregate rs) = regionDistrictMap (aggregate rs') /\
  (forall region district,
      linked (regionDistrictMap (aggregate rs)) region district
      <-> seen_with rs region district) /\
  (forall region l,
      serialize_relation (regionDistrictMap (aggregate rs)) !! region = Some l ->
      StronglySorted String.le l /\ NoDup l /\
      forall d, d ∈ l <-> seen_with rs region d).
Proof.
  intros Hp. rewrite !aggregate_tables; simpl. split; [|split].
  - by apply relate_all_permutation.
  - apply linked_relate_all.
  - intros region l. unfold serialize_relation. rewrite lookup_fmap.
    destruct (relate_all rs ∅ !! region) as [ds|] eqn:Hds; [|done].
    intros [= <-]. destruct (sorted_spec ds) as (Hs & Hn & Hin).
    split; [done|]. split; [done|]. intros d.
    rewrite Hin, <- linked_relate_all. unfold linked. rewrite Hds. split.
    + eauto.
    + by intros (ds' & [= <-] & ?).
Qed.

Lemma relation_map_order_independent_witness :
  [north_boy; north_girl; south_boy] ≡ₚ [north_girl; north_boy; south_boy] /\
  regionDistrictMap (aggregate [north_boy; north_girl; south_boy])
  = regionDistrictMap (aggregate [north_girl; north_boy; south_boy]) /\
  serialize_relation (regionDistrictMap (aggregate [north_boy; north_girl; south_boy]))
    !! "North" = Some ["Agra"; "Delhi"].
Proof.
  split; [apply perm_swap|].
  split; [|vm_compute; reflexivity].
  apply (relation_map_order_independent
           [north_boy; north_girl; south_boy] [north_girl; north_boy; south_boy]).
  apply perm_swap.
Defined.

End RelationFacts.

(** ** Persisting *)

Section PersistFacts.
Import Aggregate Persist.

Lemma getitem_setitem_eq key v d : getitem key (setitem key v d) = Some v.
Proof.
  induction d as [|[k w] d IH]; simpl.
  - by rewrite String.eqb_refl.
  - destruct (String.eqb_spec k key) as [->|Hne]; simpl.
    + by rewrite String.eqb_refl.
    + by rewrite (eqb_false_of_ne _ _ Hne).
Qed.

Lemma getitem_setitem_ne key v d k :
  k <> key -> getitem k (setitem key v d) = getitem k d.
Proof.
  intros Hk. induction d as [|[k' w] d IH]; simpl.
  - by rewrite (eqb_false_of_ne key k) by done.
  - destruct (String.eqb_spec k' key) as [->|Hne]; simpl.
    + by rewrite (eqb_false_of_ne key k) by done.
    + by rewrite IH.
Qed.

(** The fields under other keys stay as they are and where they are. *)
Lemma others_setitem key v d (keys : list string) :
  key ∈ keys ->
  filter (fun kv : string * json => fst kv ∉ keys) (setitem key v d)
  = filter (fun kv : string * json => fst kv ∉ keys) d.
Proof.
  intros Hk. induction d as [|[k w] d IH]; simpl.
  - by rewrite filter_cons_False by (simpl; auto).
  - destruct (String.eqb_spec k key) as [->|Hne].
    + rewrite !filter_cons_False by (simpl; auto). reflexivity.
    + rewrite !filter_cons, IH. reflexivity.
Qed.

Ltac other_key :=
  match goal with
  | H : ?k ∉ _ |- ?k <> _ =>
      intros ->; apply H; unfold aggregate_keys, protection_keys;
      rewrite !elem_of_cons; tauto
  end.

Ltac listed := rewrite !elem_of_cons; tauto.

(** C7. Run on a document that is an object, either step writes the
    document back with its own top-level keys set and every other top-level
    field as it was (same value, same place); run on a file that is
    missing, that does not parse, or whose document is not an object, it
    raises and the file is left as it was. *)
Theorem merge_on_write (t : tables) (pv pr pa sc : json) :
  (forall d, exists d',
      update_summary t (Document (JObj d)) = (Document (JObj d'), inr tt) /\
      (forall k, k ∉ aggregate_keys -> getitem k d' = getitem k d) /\
      filter (fun kv : string * json => fst kv ∉ aggregate_keys) d'
      = filter (fun kv : string * json => fst kv ∉ aggregate_keys) d /\
      getitem "byRegion" d' = Some (json_of_table (byRegion t)) /\
      getitem "byDistrict" d' = Some (json_of_table (byDistrict t)) /\
      getitem "regionYearData" d' = Some (json_of_table2 (regionYearData t)) /\
      getitem "districtYearData" d' = Some (json_of_table2 (districtYearData t)) /\
      getitem "regionDistrictMap" d'
      = Some (json_of_relation (regionDistrictMap t))) /\
  (forall d, exists d',
      update_json_with_protection_data pv pr pa sc (Document (JObj d))
      = (Document (JObj d'), inr tt) /\
      (forall k, k ∉ protection_keys -> getitem k d' = getitem k d) /\
      filter (fun kv : string * json => fst kv ∉ protection_keys) d'
      = filter (fun kv : string * json => fst kv ∉ protection_keys) d /\
      getitem "protectionVulnerability" d' = Some pv /\
      getitem "protectionByRegion" d' = Some pr /\
      getitem "protectionByAgeBand" d' = Some pa /\
      getitem "sampleProtectionCases" d' = Some sc) /\
  update_summary t Missing = (Missing, inl FileNotFoundError) /\
  update_json_with_protection_data pv pr pa sc Missing
  = (Missing, inl FileNotFoundError) /\
  (forall text,
      update_summary t (Unparsable text) = (Unparsable text, inl JSONDecodeError) /\
      update_json_with_protection_data pv pr pa sc (Unparsable text)
      = (Unparsable text, inl JSONDecodeError)) /\
  (forall f e f',
      (update_summary t f = (f', inl e) -> f' = f) /\
      (update_json_with_protection_data pv pr pa sc f = (f', inl e) -> f' = f)).
Proof.
  split; [|split; [|split; [|split; [|split]]]].
  - intros d. eexists. split; [reflexivity|].
    split; [|split; [|repeat split]].
    + intros k Hk. rewrite !getitem_setitem_ne by other_key. reflexivity.
    + unfold aggregate_keys. rewrite !others_setitem by listed. reflexivity.
    + rewrite !getitem_setitem_ne by done. apply getitem_setitem_eq.
    + rewrite !getitem_setitem_ne by done. apply getitem_setitem_eq.
    + rewrite !getitem_setitem_ne by done. apply getitem_setitem_eq.
    + rewrite !getitem_setitem_ne by done. apply getitem_setitem_eq.
    + apply getitem_setitem_eq.
  - intros d. eexists. split; [reflexivity|].
    split; [|split; [|repeat split]].
    + intros k Hk. rewrite !getitem_setitem_ne by other_key. reflexivity.
    + unfold protection_keys. rewrite !others_setitem by listed. reflexivity.
    + rewrite !getitem_setitem_ne by done. apply getitem_setitem_eq.
    + rewrite !getitem_setitem_ne by done. apply getitem_setitem_eq.
    + rewrite !getitem_setitem_ne by done. apply getitem_setitem_eq.
    + apply getitem_setitem_eq.
  - reflexivity.
  - reflexivity.
  - intros text. split; reflexivity.
  - intros f e f'. split.
    + destruct f as [|text|[]]; cbv; congruence.
    + destruct f as [|text|[]]; cbv; congruence.
Qed.

Lemma merge_on_write_witness :
  exists d',
    update_summary (aggregate Groups.sample) (Document (JObj old_document))
    = (Document (JObj d'), inr tt) /\
    getitem "totalRecords" d' = Some (JInt 3) /\
    getitem "byRegion" d' = Some (json_of_table (byRegion (aggregate Groups.sample))).
Proof.
  destruct (merge_on_write (aggregate Groups.sample) JNull JNull JNull JNull)
    as (Hobj & _).
  destruct (Hobj old_document) as (d' & Hrun & Hother & _ & Hreg & _).
  exists d'. split; [exact Hrun|]. split; [|exact Hreg].
  rewrite Hother; [reflexivity|].
  unfold aggregate_keys. rewrite !elem_of_cons, elem_of_nil.
  intros [?|[?|[?|[?|[?|[]]]]]]; discriminate.
Defined.

End PersistFacts.

(** ** Repair of non-finite numbers *)

Section NanFixFacts.
Import NanFix.

(** C9. The repair turns NaN and Infinity into null, but a negative
    infinity comes out as a minus sign before null: the second substitution
    has already rewritten its word, and the third pattern, which asks for a
    word boundary before the minus sign, does not match it on its own. *)
Theorem negative_infinity_is_not_repaired :
  fix_content "[NaN, Infinity]" = "[null, null]" /\
  fix_content "[-Infinity]" = "[-null]" /\
  re_sub "-Infinity" "null" "[-Infinity]" = "[-Infinity]".
Proof. repeat split; vm_compute; reflexivity. Qed.

End NanFixFacts.

(** * Further properties of the code *)

(** ** Risk scorer: factors and scores *)

Section RiskFactors.
Import Text Risk RiskReport.

(** Case analysis on every test of a scorer. *)
Ltac by_rules :=
  repeat match goal with
         | |- context [if ?c then _ else _] => destruct c
         end.

Ltac traffic_cases row :=
  unfold calc_child_trafficking_risk;
  destruct (contains "drop out" (field row F_enrollment)
            || contains "never enrolled" (field row F_enrollment));
  destruct (contains "yes" (field row F_economic));
  cbn [andb];
  by_rules.

Ltac in_order :=
  repeat first [apply sublist_nil | apply sublist_skip | apply sublist_cons].

Lemma iff_by_decide (P Q : Prop) `{!Decision P, !Decision Q} :
  bool_decide P = bool_decide Q -> (P <-> Q).
Proof.
  intros H. split; intros HP; apply (bool_decide_unpack _).
  - rewrite <- H. by apply bool_decide_pack.
  - rewrite H. by apply bool_decide_pack.
Qed.

Lemma impl_by_decide (P Q : Prop) `{!Decision P, !Decision Q} :
  implb (bool_decide P) (bool_decide Q) = true -> P -> Q.
Proof.
  intros H HP. rewrite (bool_decide_eq_true_2 P HP) in H. simpl in H.
  by apply bool_decide_eq_true_1 in H.
Qed.

(** The factors a scorer lists are some of its labels, each at most once
    and in the order the rules are evaluated. *)
Theorem factors_follow_rule_order (row : record) :
  snd (calc_child_marriage_risk row) `sublist_of` marriage_labels /\
  snd (calc_child_labour_risk row) `sublist_of` labour_labels /\
  snd (calc_child_trafficking_risk row) `sublist_of` trafficking_labels /\
  NoDup (snd (calc_child_marriage_risk row)) /\
  NoDup (snd (calc_child_labour_risk row)) /\
  NoDup (snd (calc_child_trafficking_risk row)).
Proof.
  assert (M : snd (calc_child_marriage_risk row) `sublist_of` marriage_labels).
  { unfold calc_child_marriage_risk. by_rules; in_order. }
  assert (L : snd (calc_child_labour_risk row) `sublist_of` labour_labels).
  { unfold calc_child_labour_risk. by_rules; in_order. }
  assert (T : snd (calc_child_trafficking_risk row) `sublist_of` trafficking_labels).
  { traffic_cases row; in_order. }
  repeat split; try done.
  - eapply sublist_NoDup; [|exact M]. apply (bool_decide_unpack _). by vm_compute.
  - eapply sublist_NoDup; [|exact L]. apply (bool_decide_unpack _). by vm_compute.
  - eapply sublist_NoDup; [|exact T]. apply (bool_decide_unpack _). by vm_compute.
Qed.

(** A score is zero exactly when no factor is listed, so the level is
    Minimal exactly for the records without any factor. *)
Theorem no_factor_iff_minimal (row : record) :
  (snd (calc_child_marriage_risk row) = []
   <-> get_risk_level (fst (calc_child_marriage_risk row)) = "Minimal") /\
  (snd (calc_child_labour_risk row) = []
   <-> get_risk_level (fst (calc_child_labour_risk row)) = "Minimal") /\
  (snd (calc_child_trafficking_risk row) = []
   <-> get_risk_level (fst (calc_child_trafficking_risk row)) = "Minimal").
Proof.
  split; [|split].
  - unfold calc_child_marriage_risk. by_rules; vm_compute; split; congruence.
  - unfold calc_child_labour_risk. by_rules; vm_compute; split; congruence.
  - traffic_cases row; vm_compute; split; congruence.
Qed.

(** The child-marriage score never exceeds 65, the sum of all its weights:
    the cap at 100 is never what limits it; and every score of the three
    scorers is a multiple of 5. *)
Theorem marriage_score_below_cap (row : record) :
  fst (calc_child_marriage_risk row) <= 65 /\
  (5 | fst (calc_child_marriage_risk row)) /\
  (5 | fst (calc_child_labour_risk row)) /\
  (5 | fst (calc_child_trafficking_risk row)).
Proof.
  repeat split.
  - unfold calc_child_marriage_risk. by_rules; vm_compute; congruence.
  - unfold calc_child_marriage_risk.
    by_rules; apply Z.mod_divide; try done.
  - unfold calc_child_labour_risk.
    by_rules; apply Z.mod_divide; try done.
  - traffic_cases row; apply Z.mod_divide; try done.
Qed.

(** Factors that depend on one another: the labour scorer lists "Works
    outside alone" only together with "Economic activity"; the trafficking
    scorer lists at most one of its three school-and-work labels and at most
    one of its two migration labels. *)
Theorem dependent_factors (row : record) :
  ("Works outside alone" ∈ snd (calc_child_labour_risk row) ->
   "Economic activity" ∈ snd (calc_child_labour_risk row)) /\
  (length (filter (fun l => l ∈ ["Out of school + Economic activity";
                                  "Out of school"; "Economic activity"])
                  (snd (calc_child_trafficking_risk row))) <= 1)%nat /\
  (length (filter (fun l => l ∈ ["Migrant family"; "Child migrated"])
                  (snd (calc_child_trafficking_risk row))) <= 1)%nat.
Proof.
  split; [|split].
  - unfold calc_child_labour_risk.
    by_rules; apply (impl_by_decide _ _); vm_compute; reflexivity.
  - traffic_cases row; vm_compute; lia.
  - traffic_cases row; vm_compute; lia.
Qed.

Ltac decide_iffs := repeat split; apply (iff_by_decide _ _); vm_compute; reflexivity.

Lemma marriage_shared_rules (row : record) :
  ("Out of school" ∈ snd (calc_child_marriage_risk row)
   <-> out_of_school row = true) /\
  ("Orphan/Single parent" ∈ snd (calc_child_marriage_risk row)
   <-> lone_household row = true) /\
  ("Missing children in HH" ∈ snd (calc_child_marriage_risk row)
   <-> child_missing row = true).
Proof.
  unfold out_of_school, lone_household, child_missing, calc_child_marriage_risk.
  by_rules; decide_iffs.
Qed.

Lemma labour_shared_rules (row : record) :
  ("Out of school" ∈ snd (calc_child_labour_risk row)
   <-> out_of_school row = true) /\
  ("Orphan/Single parent" ∈ snd (calc_child_labour_risk row)
   <-> lone_household row = true) /\
  ("Protection issues" ∈ snd (calc_child_labour_risk row)
   <-> child_missing row = true).
Proof.
  unfold out_of_school, lone_household, child_missing, calc_child_labour_risk.
  by_rules; decide_iffs.
Qed.

Lemma trafficking_shared_rules (row : record) :
  ("Orphan/Single parent" ∈ snd (calc_child_trafficking_risk row)
   <-> lone_household row = true) /\
  ("Missing children in HH" ∈ snd (calc_child_trafficking_risk row)
   <-> child_missing row = true).
Proof.
  unfold lone_household, child_missing. traffic_cases row; decide_iffs.
Qed.

(** The rules the scorers share fire on the same tests: a dropped-out
    or never-enrolled child, a household headed by a single parent,
    grandparents or children, a missing child.  Each scorer lists its factor
    exactly when the test holds, so the scorers agree on them. *)
Theorem shared_rules_fire_together (row : record) :
  ("Out of school" ∈ snd (calc_child_marriage_risk row)
   <-> out_of_school row = true) /\
  ("Out of school" ∈ snd (calc_child_labour_risk row)
   <-> out_of_school row = true) /\
  ("Orphan/Single parent" ∈ snd (calc_child_marriage_risk row)
   <-> lone_household row = true) /\
  ("Orphan/Single parent" ∈ snd (calc_child_labour_risk row)
   <-> lone_household row = true) /\
  ("Orphan/Single parent" ∈ snd (calc_child_trafficking_risk row)
   <-> lone_household row = true) /\
  ("Missing children in HH" ∈ snd (calc_child_marriage_risk row)
   <-> child_missing row = true) /\
  ("Protection issues" ∈ snd (calc_child_labour_risk row)
   <-> child_missing row = true) /\
  ("Missing children in HH" ∈ snd (calc_child_trafficking_risk row)
   <-> child_missing row = true).
Proof.
  destruct (marriage_shared_rules row) as (M1 & M2 & M3).
  destruct (labour_shared_rules row) as (L1 & L2 & L3).
  destruct (trafficking_shared_rules row) as (T2 & T3).
  repeat split; tauto.
Qed.

End RiskFactors.

(** ** Risk report: cohorts and counts *)

Section RiskReportFacts.
Import Text Risk RiskReport.

Lemma count_where_cons {A} (mask : A -> bool) x l :
  count_where mask (x :: l) = (if mask x then 1 else 0) + count_where mask l.
Proof. unfold count_where; simpl. destruct (mask x); simpl; lia. Qed.

Lemma count_where_nil {A} (mask : A -> bool) : count_where mask [] = 0.
Proof. reflexivity. Qed.

(** How one score falls in the bands and what level it gets. *)
Lemma band_of_score (s : Z) :
  ((get_risk_level s =? "High")%string = (s >=? 50)) /\
  ((get_risk_level s =? "Medium")%string = ((s >=? 25) && (s <? 50))) /\
  ((get_risk_level s =? "Low")%string = ((s >? 0) && (s <? 25))).
Proof.
  unfold get_risk_level.
  destruct (Z.geb_spec s 50), (Z.geb_spec s 25), (Z.gtb_spec s 0),
    (Z.ltb_spec s 50), (Z.ltb_spec s 25); try lia; repeat split; reflexivity.
Qed.

(** The four score bands are counted exactly as the levels are: the rows
    at level High are those of the band from 50, Medium those of 25-49, Low
    those of 1-24; the rows at risk are the High, Medium and Low rows
    together. *)
Theorem level_counts_match_bands (risk_scores : list Z) :
  let c := count_risks risk_scores in
  highRisk c = band_50_plus c /\
  mediumRisk c = band_25_49 c /\
  lowRisk c = band_1_24 c /\
  totalAtRisk c = highRisk c + mediumRisk c + lowRisk c.
Proof.
  unfold count_risks, levels; simpl.
  induction risk_scores as [|s l (IH1 & IH2 & IH3 & IH4)]; [done|].
  simpl map. rewrite !count_where_cons.
  destruct (band_of_score s) as (H1 & H2 & H3).
  rewrite IH4, H1, H2, H3. rewrite <- IH1, <- IH2, <- IH3.
  repeat split;
    destruct (Z.geb_spec s 50), (Z.geb_spec s 25), (Z.gtb_spec s 0),
      (Z.ltb_spec s 50), (Z.ltb_spec s 25); simpl; lia.
Qed.

Lemma bands_cover (ss : list Z) :
  Forall (fun s => 0 <= s) ss ->
  let c := count_risks ss in
  band_0 c + band_1_24 c + band_25_49 c + band_50_plus c = Z.of_nat (length ss).
Proof.
  unfold count_risks; simpl. induction 1 as [|s l Hs _ IH]; [done|].
  rewrite !count_where_cons, length_cons.
  destruct (Z.geb_spec s 50), (Z.geb_spec s 25), (Z.gtb_spec s 0),
    (Z.ltb_spec s 50), (Z.ltb_spec s 25), (Z.eqb_spec s 0); simpl; lia.
Qed.

Lemma scores_nonneg calc (cohort : list record) :
  (forall row, 0 <= fst (calc row) <= 100) ->
  Forall (fun s => 0 <= s) (scores calc cohort).
Proof.
  intros H. unfold scores. apply Forall_forall. intros s Hs.
  apply list_elem_of_fmap in Hs as (row & -> & _). apply H.
Qed.

(** Every row of a cohort is counted in exactly one score band, for each
    of the three scorers: the four band counts add up to the size of the
    cohort. *)
Theorem bands_cover_the_cohort (cohort : list record) :
  let size := Z.of_nat (length cohort) in
  let m := count_risks (scores calc_child_marriage_risk cohort) in
  let l := count_risks (scores calc_child_labour_risk cohort) in
  let t := count_risks (scores calc_child_trafficking_risk cohort) in
  band_0 m + band_1_24 m + band_25_49 m + band_50_plus m = size /\
  band_0 l + band_1_24 l + band_25_49 l + band_50_plus l = size /\
  band_0 t + band_1_24 t + band_25_49 t + band_50_plus t = size.
Proof.
  assert (L : forall calc, length (scores calc cohort) = length cohort)
    by (intros; apply length_map).
  cbv zeta. repeat split.
  - rewrite <- (L calc_child_marriage_risk).
    apply bands_cover, scores_nonneg, marriage_score_nonneg.
  - rewrite <- (L calc_child_labour_risk).
    apply bands_cover, scores_nonneg, labour_score_nonneg.
  - rewrite <- (L calc_child_trafficking_risk).
    apply bands_cover, scores_nonneg, trafficking_score_nonneg.
Qed.

Lemma filter_implies {A} (p q : A -> bool) (l : list A) :
  (forall x, p x = true -> q x = true) ->
  List.filter p l `sublist_of` List.filter q l.
Proof.
  intros H. induction l as [|x l IH]; simpl; [constructor|].
  destruct (p x) eqn:Hp.
  - rewrite (H x Hp). by apply sublist_skip.
  - destruct (q x); [by apply sublist_cons|done].
Qed.

(** The girls of 10 to 18 are among the children of 6 to 18, in the same
    order; every one of them has the gender text female exactly. *)
Theorem girls_are_among_children (labor_df : list record) :
  girls_10_18 labor_df `sublist_of` children_6_18 labor_df /\
  (length (girls_10_18 labor_df) <= length (children_6_18 labor_df))%nat /\
  forall row, row ∈ girls_10_18 labor_df ->
              row ∈ labor_df /\ row !! "Gender" = Some (VStr "female").
Proof.
  assert (S : girls_10_18 labor_df `sublist_of` children_6_18 labor_df).
  { apply filter_implies. intros row [_ H]%andb_true_iff.
    unfold cell_in in *. destruct (row !! "Age Band") as [[]|]; try done.
    apply mem_true in H. apply mem_true.
    rewrite !elem_of_cons in *. tauto. }
  split; [exact S|]. split; [by apply sublist_length|].
  intros row Hrow. unfold girls_10_18 in Hrow.
  apply list_elem_of_In, filter_In in Hrow as [Hin [Hg _]%andb_true_iff].
  split; [by apply list_elem_of_In|].
  unfold cell_is in Hg. destruct (row !! "Gender") as [[]|]; try done.
  by apply String.eqb_eq in Hg as ->.
Qed.

(** A higher score never gets a less severe level. *)
Theorem level_grows_with_score (s1 s2 : Z) :
  s1 <= s2 ->
  (severity (get_risk_level s1) <= severity (get_risk_level s2))%nat.
Proof.
  intros H. unfold get_risk_level.
  destruct (Z.geb_spec s1 50), (Z.geb_spec s1 25), (Z.gtb_spec s1 0),
    (Z.geb_spec s2 50), (Z.geb_spec s2 25), (Z.gtb_spec s2 0);
    try lia; vm_compute; lia.
Qed.

Lemma level_grows_with_score_witness :
  24 <= 25 /\
  (severity (get_risk_level 24) <= severity (get_risk_level 25))%nat.
Proof. split; [lia|]. apply (level_grows_with_score 24 25). lia. Defined.

End RiskReportFacts.

(** ** Texts: trimming *)

Section StripFacts.
Import Text.

Lemma rstrip_keeps_head c s :
  isspace c = false -> rstrip (String c s) = String c (rstrip s).
Proof. intros H. simpl. rewrite H. by destruct (rstrip s). Qed.

Lemma rstrip_rstrip s : rstrip (rstrip s) = rstrip s.
Proof.
  induction s as [|c s IH]; [done|]. simpl.
  destruct (rstrip s) as [|c' r] eqn:Hr.
  - destruct (isspace c) eqn:Hc; [done|]. simpl. by rewrite Hc.
  - simpl in *. rewrite IH. reflexivity.
Qed.

Lemma lstrip_head s :
  lstrip s = "" \/ exists c t, lstrip s = String c t /\ isspace c = false.
Proof.
  induction s as [|c s IH]; [by left|]. simpl.
  destruct (isspace c) eqn:Hc; [exact IH|]. right. eauto.
Qed.

Lemma strip_strip s : strip (strip s) = strip s.
Proof.
  unfold strip. destruct (lstrip_head s) as [->|(c & t & -> & Hc)]; [done|].
  rewrite (rstrip_keeps_head c t Hc). simpl lstrip. rewrite Hc.
  rewrite (rstrip_keeps_head c _ Hc), rstrip_rstrip. reflexivity.
Qed.

End StripFacts.

(** ** Aggregator: keys, merging, order *)

Section MergingFacts.
Import Text Aggregate Groups Merging.

Lemma safe_str_facts (v : value) :
  safe_str v <> "" /\ strip (safe_str v) = safe_str v.
Proof.
  unfold safe_str. destruct v; [done|..]; cbv zeta;
    match goal with
    | |- context [String.eqb ?s ""] => destruct (String.eqb_spec s "") as [E|E]
    end; try done; (split; [exact E|apply strip_strip]).
Qed.

(** The key [safe_str] gives is never empty and carries no white space at
    its ends; cleaning a cleaned key changes nothing. *)
Theorem safe_str_is_clean (v : value) :
  safe_str v <> "" /\
  strip (safe_str v) = safe_str v /\
  safe_str (VStr (safe_str v)) = safe_str v.
Proof.
  destruct (safe_str_facts v) as [A1 A2]. split; [done|]. split; [done|].
  unfold safe_str at 1. simpl py_str. rewrite A2.
  by destruct (String.eqb_spec (safe_str v) "").
Qed.

Lemma how_many_perm p (l l' : list record) :
  l ≡ₚ l' -> how_many p l = how_many p l'.
Proof.
  unfold how_many. induction 1 as [|x l l' _ IH|x y l|l1 l2 l3 _ IH1 _ IH2]; simpl.
  - done.
  - destruct (p x); simpl; lia.
  - destruct (p x), (p y); simpl; lia.
  - lia.
Qed.

Lemma counter_of_perm (g g' : list record) :
  g ≡ₚ g' -> counter_of g = counter_of g'.
Proof.
  intros H. unfold counter_of.
  by rewrite (Permutation_length H), !(how_many_perm _ _ _ H).
Qed.

Lemma entry_perm (g g' : list record) : g ≡ₚ g' -> entry g = entry g'.
Proof.
  intros H. destruct g as [|x g].
  - by apply Permutation_nil in H as ->.
  - destruct g' as [|x' g'].
    + symmetry in H. by apply Permutation_nil in H.
    + simpl. f_equal. by apply counter_of_perm.
Qed.

Lemma group_perm key k (rs rs' : list record) :
  rs ≡ₚ rs' -> group key k rs ≡ₚ group key k rs'.
Proof. intros H. unfold group. by rewrite H. Qed.

Lemma tally_all_perm key (rs rs' : list record) :
  rs ≡ₚ rs' -> tally_all key rs ∅ = tally_all key rs' ∅.
Proof.
  intros H. apply map_eq. intros k. rewrite !tally_all_lookup.
  by apply entry_perm, group_perm.
Qed.

Lemma tally2_all_perm key1 key2 (rs rs' : list record) :
  rs ≡ₚ rs' -> tally2_all key1 key2 rs ∅ = tally2_all key1 key2 rs' ∅.
Proof.
  intros H. apply map_eq. intros k. rewrite !tally2_all_lookup.
  pose proof (group_perm key1 k _ _ H) as Hg.
  destruct (group key1 k rs) as [|x g].
  - by apply Permutation_nil in Hg as ->.
  - destruct (group key1 k rs') as [|x' g'].
    + symmetry in Hg. by apply Permutation_nil in Hg.
    + change (Some (tally_all key2 (x :: g) ∅) = Some (tally_all key2 (x' :: g') ∅)).
      f_equal. by apply tally_all_perm.
Qed.

(** The whole pass is independent of the order of the records: all five
    accumulators come out the same. *)
Theorem aggregate_order_independent (rs rs' : list record) :
  rs ≡ₚ rs' -> aggregate rs = aggregate rs'.
Proof.
  intros H. rewrite !aggregate_tables.
  rewrite (tally_all_perm region_of _ _ H), (tally_all_perm district_of _ _ H),
    (tally2_all_perm region_of year_of _ _ H),
    (tally2_all_perm district_of year_of _ _ H),
    (relate_all_permutation _ _ ∅ H).
  reflexivity.
Qed.

Lemma aggregate_order_independent_witness :
  [north_boy; north_girl; south_boy] ≡ₚ [south_boy; north_girl; north_boy] /\
  aggregate [north_boy; north_girl; south_boy]
  = aggregate [south_boy; north_girl; north_boy].
Proof.
  assert (P : [north_boy; north_girl; south_boy]
              ≡ₚ [south_boy; north_girl; north_boy]).
  { etrans; [apply perm_skip, perm_swap|].
    etrans; [apply perm_swap|]. apply perm_skip, perm_swap. }
  split; [exact P|]. exact (aggregate_order_independent _ _ P).
Defined.

Lemma counter_of_app (g1 g2 : list record) :
  counter_of (g1 ++ g2) = add_counter (counter_of g1) (counter_of g2).
Proof.
  unfold counter_of, add_counter; simpl.
  rewrite length_app, !how_many_app. f_equal. lia.
Qed.

Lemma group_app key k (l1 l2 : list record) :
  group key k (l1 ++ l2) = group key k l1 ++ group key k l2.
Proof. unfold group. apply filter_app. Qed.

Lemma at_key_tally_all key rs k :
  at_key (tally_all key rs ∅) k = counter_of (group key k rs).
Proof. unfold at_key. by rewrite tally_all_lookup, default_entry. Qed.

Lemma default_entry2 key2 g : default ∅ (entry2 key2 g) = tally_all key2 g ∅.
Proof. by destruct g. Qed.

(** The pass over two batches of records, one after the other, gives under
    every key the sum of the counters of the two batches, in the single-key
    tables and in the year tables. *)
Theorem aggregate_of_two_batches (l1 l2 : list record) (k y : string) :
  let whole := aggregate (l1 ++ l2) in
  let first := aggregate l1 in
  let second := aggregate l2 in
  at_key (byRegion whole) k
  = add_counter (at_key (byRegion first) k) (at_key (byRegion second) k) /\
  at_key (byDistrict whole) k
  = add_counter (at_key (byDistrict first) k) (at_key (byDistrict second) k) /\
  at_key (default ∅ (regionYearData whole !! k)) y
  = add_counter (at_key (default ∅ (regionYearData first !! k)) y)
                (at_key (default ∅ (regionYearData second !! k)) y) /\
  at_key (default ∅ (districtYearData whole !! k)) y
  = add_counter (at_key (default ∅ (districtYearData first !! k)) y)
                (at_key (default ∅ (districtYearData second !! k)) y).
Proof.
  cbv zeta. rewrite !aggregate_tables; simpl.
  rewrite !tally2_all_lookup, !default_entry2, !at_key_tally_all, !group_app.
  rewrite !counter_of_app. done.
Qed.

Lemma group_nil_iff key k (rs : list record) :
  group key k rs = [] <-> k ∉ map key rs.
Proof.
  split.
  - intros H Hin. apply list_elem_of_fmap in Hin as (r & -> & Hr).
    assert (r ∈ group key (key r) rs) as Hg by (by apply elem_of_group).
    rewrite H in Hg. by apply elem_of_nil in Hg.
  - intros H. apply elem_of_nil_inv. intros r [Hk Hr]%elem_of_group.
    apply H. subst k. by apply list_elem_of_fmap_2.
Qed.

Lemma dom_tally_all key (rs : list record) :
  dom (tally_all key rs ∅) = keys_of key rs.
Proof.
  apply set_eq. intros k. unfold keys_of.
  rewrite elem_of_dom, tally_all_lookup, elem_of_list_to_set.
  destruct (group key k rs) as [|r g] eqn:Hg; simpl.
  - apply group_nil_iff in Hg. split; [by intros [? ?]|done].
  - split; [|eauto]. intros _.
    destruct (decide (k ∈ map key rs)) as [|Hn]; [done|].
    apply group_nil_iff in Hn. congruence.
Qed.

(** The keys of the region table are exactly the regions of the records,
    those of the district table the districts; no key is empty or has white
    space at its ends. *)
Theorem table_keys_are_the_record_keys (rs : list record) :
  dom (byRegion (aggregate rs)) = keys_of region_of rs /\
  dom (byDistrict (aggregate rs)) = keys_of district_of rs /\
  forall k, k ∈ dom (byRegion (aggregate rs)) ∨ k ∈ dom (byDistrict (aggregate rs)) ->
            k <> "" /\ strip k = k.
Proof.
  rewrite aggregate_tables; simpl. rewrite !dom_tally_all.
  split; [done|]. split; [done|].
  pose proof safe_str_facts as C.
  unfold keys_of. intros k [H|H]; apply elem_of_list_to_set in H;
    apply list_elem_of_fmap in H as (r & -> & _); apply C.
Qed.

(** Regions and districts count the same children: the boys summed over
    the regions are the boys summed over the districts, namely the records
    with a male-equivalent gender, and likewise the girls; together they
    never exceed the number of records. *)
Theorem totals_agree_across_dimensions (rs : list record) :
  total_boys (byRegion (aggregate rs)) = how_many male rs /\
  total_boys (byDistrict (aggregate rs)) = how_many male rs /\
  total_girls (byRegion (aggregate rs))
  = total_girls (byDistrict (aggregate rs)) /\
  total_boys (byRegion (aggregate rs)) + total_girls (byRegion (aggregate rs))
  <= Z.of_nat (length rs).
Proof.
  rewrite aggregate_tables; simpl.
  destruct (totals_tally_all region_of rs) as (_ & Rb & Rg).
  destruct (totals_tally_all district_of rs) as (_ & Db & Dg).
  rewrite Rb, Db, Rg, Dg. repeat split; try done.
  destruct (counter_of_balanced rs) as [H _]. exact H.
Qed.

End MergingFacts.

(** ** Region to districts: what the map never holds *)

Section RelationClean.
Import Text Aggregate Groups Merging.

Lemma relate_all_nonempty (rs : list record) k ds :
  relate_all rs ∅ !! k = Some ds -> exists d, d ∈ ds.
Proof.
  revert ds. induction rs as [|r rs IH] using rev_ind; intros ds.
  - intros H. change (relate_all [] ∅) with (∅ : relation_map) in H.
    by rewrite lookup_empty in H.
  - rewrite relate_all_snoc. unfold relate.
    destruct (negb _ && negb _); [|apply IH].
    destruct (decide (region_of r = k)) as [<-|Hne].
    + rewrite lookup_insert_eq. intros [= <-]. exists (district_of r).
      apply elem_of_union. right. by apply elem_of_singleton.
    + rewrite lookup_insert_ne by done. apply IH.
Qed.

(** A region listed in the map is never "Unknown" and always has at least
    one district; none of its districts is "Unknown"; the region is a key of
    the region table and each of its districts a key of the district
    table. *)
Theorem relation_map_is_clean (rs : list record) (region : string)
    (ds : gset string) :
  regionDistrictMap (aggregate rs) !! region = Some ds ->
  region <> "Unknown" /\ ds <> ∅ /\ ("Unknown" ∉ ds) /\
  region ∈ dom (byRegion (aggregate rs)) /\
  forall d, d ∈ ds -> d ∈ dom (byDistrict (aggregate rs)).
Proof.
  rewrite aggregate_tables; simpl. intros H. rewrite !dom_tally_all.
  assert (L : forall d, d ∈ ds -> seen_with rs region d).
  { intros d Hd. apply linked_relate_all. exists ds. by split. }
  destruct (relate_all_nonempty rs region ds H) as [d0 Hd0].
  split; [by destruct (L d0 Hd0)|].
  split; [intros ->; by apply not_elem_of_empty in Hd0|].
  split; [intros Hu; by destruct (L _ Hu) as (_ & ? & _)|].
  unfold keys_of. split.
  - destruct (L d0 Hd0) as (_ & _ & r & Hr & <- & _).
    apply elem_of_list_to_set. by apply list_elem_of_fmap_2.
  - intros d Hd. destruct (L d Hd) as (_ & _ & r & Hr & _ & <-).
    apply elem_of_list_to_set. by apply list_elem_of_fmap_2.
Qed.

Lemma relation_map_is_clean_witness :
  exists ds, regionDistrictMap (aggregate sample) !! "North" = Some ds /\
             ds <> ∅ /\ ("Unknown" ∉ ds) /\
             "North" ∈ dom (byRegion (aggregate sample)).
Proof.
  destruct (regionDistrictMap (aggregate sample) !! "North") as [ds|] eqn:E;
    [|vm_compute in E; discriminate].
  exists ds. split; [reflexivity|].
  destruct (relation_map_is_clean sample "North" ds E) as (_ & H1 & H2 & H3 & _).
  auto.
Defined.

End RelationClean.

(** ** Flattening the year-keyed input *)

Section FlattenFacts.
Import Text Aggregate Groups Merging.









End FlattenFacts.

(** ** Persisting: reruns and keys *)

Section RerunFacts.
Import Aggregate Persist Assignments.

Lemma update_summary_runs (t : tables) d :
  update_summary t (Document (JObj d))
  = (Document (JObj (assign_all (summary_assignments t) d)), inr tt).
Proof. reflexivity. Qed.

Lemma setitem_setitem k v v' d : setitem k v' (setitem k v d) = setitem k v' d.
Proof.
  induction d as [|[k0 w] d IH]; simpl.
  - by rewrite String.eqb_refl.
  - destruct (String.eqb_spec k0 k) as [->|Hne]; simpl.
    + by rewrite String.eqb_refl.
    + rewrite (eqb_false_of_ne _ _ Hne). by rewrite IH.
Qed.

Lemma setitem_comm k1 k2 v1 v2 d :
  k1 <> k2 -> is_Some (getitem k1 d) ->
  setitem k1 v1 (setitem k2 v2 d) = setitem k2 v2 (setitem k1 v1 d).
Proof.
  intros Hne. induction d as [|[k w] d IH]; simpl; [by intros [? ?]|].
  destruct (String.eqb_spec k k1) as [->|H1].
  - intros _. rewrite (eqb_false_of_ne k1 k2) by done. simpl.
    rewrite String.eqb_refl, (eqb_false_of_ne k1 k2) by done. reflexivity.
  - intros Hs. destruct (String.eqb_spec k k2) as [->|H2]; simpl.
    + rewrite (eqb_false_of_ne k2 k1) by done.
      rewrite String.eqb_refl. reflexivity.
    + rewrite (eqb_false_of_ne k k1), (eqb_false_of_ne k k2) by done.
      by rewrite IH.
Qed.

Lemma getitem_setitem_some k k' v d :
  is_Some (getitem k d) -> is_Some (getitem k (setitem k' v d)).
Proof.
  intros H. destruct (decide (k = k')) as [->|Hne].
  - rewrite getitem_setitem_eq. eauto.
  - by rewrite getitem_setitem_ne.
Qed.

Lemma setitem_assign_all k v kvs d :
  k ∉ keys kvs -> is_Some (getitem k d) ->
  setitem k v (assign_all kvs d) = assign_all kvs (setitem k v d).
Proof.
  revert d. induction kvs as [|[k' v'] kvs IH]; intros d Hk Hs; [done|].
  unfold keys in Hk. simpl in Hk. apply not_elem_of_cons in Hk as [Hne Hk].
  unfold assign_all in *. simpl.
  rewrite IH by (try done; by apply getitem_setitem_some).
  by rewrite setitem_comm.
Qed.

(** Assigning the same keys a second time leaves only the second values. *)
Lemma assign_all_twice kvs1 kvs2 d :
  keys kvs1 = keys kvs2 -> NoDup (keys kvs1) ->
  assign_all kvs2 (assign_all kvs1 d) = assign_all kvs2 d.
Proof.
  revert kvs2 d. induction kvs1 as [|[k v1] kvs1 IH]; intros [|[k2 v2] kvs2] d;
    try done.
  unfold keys. simpl. intros [= <- Hk] [Hnin Hnd]%NoDup_cons.
  change (assign_all kvs2 (setitem k v2 (assign_all kvs1 (setitem k v1 d)))
          = assign_all kvs2 (setitem k v2 d)).
  rewrite setitem_assign_all, setitem_setitem.
  - by apply IH.
  - exact Hnin.
  - rewrite getitem_setitem_eq. eauto.
Qed.

(** A later run replaces what an earlier run wrote: on the document the
    first run left, the second run gives what it would have given on the
    document before the first run; in particular a run repeated with the
    same tables leaves the document as it is. *)
Theorem rerun_replaces_earlier_run (t1 t2 : tables) (d : list (string * json)) :
  exists d1,
    update_summary t1 (Document (JObj d)) = (Document (JObj d1), inr tt) /\
    update_summary t2 (Document (JObj d1))
    = update_summary t2 (Document (JObj d)) /\
    update_summary t1 (Document (JObj d1)) = (Document (JObj d1), inr tt).
Proof.
  exists (assign_all (summary_assignments t1) d).
  rewrite !update_summary_runs.
  rewrite !assign_all_twice; try done; by apply (bool_decide_unpack _).
Qed.

Lemma keys_setitem k v d :
  keys (setitem k v d) = if decide (k ∈ keys d) then keys d else keys d ++ [k].
Proof.
  unfold keys. induction d as [|[k0 w] d IH]; simpl; [done|].
  destruct (String.eqb_spec k0 k) as [->|Hne]; simpl.
  - rewrite decide_True by (apply elem_of_cons; by left). reflexivity.
  - rewrite IH. destruct (decide (k ∈ map fst d)).
    + rewrite decide_True by (apply elem_of_cons; by right). reflexivity.
    + rewrite decide_False; [done|]. rewrite elem_of_cons.
      intros [?|?]; [congruence|done].
Qed.

Lemma keys_assign_all kvs d :
  NoDup (keys d) ->
  NoDup (keys (assign_all kvs d)) /\
  forall k, k ∈ keys (assign_all kvs d) <-> k ∈ keys d \/ k ∈ keys kvs.
Proof.
  revert d. induction kvs as [|[k v] kvs IH]; intros d Hnd.
  - split; [done|]. intros k. unfold keys at 3. simpl.
    rewrite elem_of_nil. tauto.
  - change (assign_all ((k, v) :: kvs) d) with (assign_all kvs (setitem k v d)).
    assert (Hnd' : NoDup (keys (setitem k v d))).
    { rewrite keys_setitem. destruct (decide (k ∈ keys d)); [done|].
      apply NoDup_app. split; [done|]. split.
      - intros x Hx ->%list_elem_of_singleton. done.
      - apply NoDup_singleton. }
    destruct (IH _ Hnd') as [IH1 IH2]. split; [done|].
    intros k0. rewrite IH2, keys_setitem. unfold keys at 4. simpl.
    rewrite elem_of_cons. destruct (decide (k ∈ keys d)).
    + split; [tauto|]. intros [?|[->|?]]; tauto.
    + rewrite elem_of_app, list_elem_of_singleton. tauto.
Qed.

(** A document whose top-level keys are all different stays so; its keys
    after the run are the keys it had and the five keys of the run. *)
Theorem top_level_keys_stay_unique (t : tables) (d : list (string * json)) :
  NoDup (keys d) ->
  exists d',
    update_summary t (Document (JObj d)) = (Document (JObj d'), inr tt) /\
    NoDup (keys d') /\
    forall k, k ∈ keys d' <-> k ∈ keys d \/ k ∈ aggregate_keys.
Proof.
  intros Hnd. exists (assign_all (summary_assignments t) d).
  split; [apply update_summary_runs|].
  apply (keys_assign_all (summary_assignments t) d Hnd).
Qed.

Lemma top_level_keys_stay_unique_witness :
  NoDup (keys old_document) /\
  exists d',
    update_summary (aggregate Groups.sample) (Document (JObj old_document))
    = (Document (JObj d'), inr tt) /\
    NoDup (keys d') /\ length d' = 6%nat.
Proof.
  assert (N : NoDup (keys old_document)) by (by apply (bool_decide_unpack _)).
  split; [exact N|].
  destruct (top_level_keys_stay_unique (aggregate Groups.sample) old_document N)
    as (d' & Hrun & Hnd & _).
  exists d'. split; [exact Hrun|]. split; [exact Hnd|].
  rewrite update_summary_runs in Hrun. injection Hrun as <-. reflexivity.
Defined.

End RerunFacts.

(** ** Repair of non-finite numbers: what is left alone *)

Section RepairFacts.
Import Text NanFix.

Lemma scan_without_literal lit repl prev s :
  contains lit s = false -> scan lit repl prev 0 s = s.
Proof.
  revert prev. induction s as [|c s IH]; intros prev; [done|].
  simpl contains. intros [Hs Hc]%orb_false_iff.
  simpl scan. unfold matches_at. rewrite Hs. simpl. by rewrite IH.
Qed.

Lemma contains_longer a p s :
  contains (String a p) s = true -> contains p s = true.
Proof.
  induction s as [|c s IH]; simpl.
  - rewrite orb_false_r. done.
  - intros [H|H]%orb_true_iff.
    + destruct (ascii_dec a c); [|done].
      apply orb_true_iff. right.
      destruct s; simpl; rewrite H; done.
    + apply orb_true_iff. right. auto.
Qed.

(** A text that holds neither "NaN" nor "Infinity" anywhere is written
    back unchanged. *)
Theorem clean_text_is_untouched (content : string) :
  contains "NaN" content = false -> contains "Infinity" content = false ->
  fix_content content = content.
Proof.
  intros Hn Hi. unfold fix_content, re_sub.
  rewrite (scan_without_literal "NaN") by done.
  rewrite (scan_without_literal "Infinity") by done.
  apply scan_without_literal.
  destruct (contains "-Infinity" content) eqn:E; [|done].
  apply contains_longer in E. congruence.
Qed.

Lemma clean_text_is_untouched_witness :
  fix_content "[1, null, 2.5]" = "[1, null, 2.5]".
Proof. apply clean_text_is_untouched; reflexivity. Defined.

End RepairFacts.


(** ** State names *)

Section StateNameFacts.
Import Text StateNames.

Lemma lookup_or_hit_or_miss d name default :
((name ∉ map fst d) /\ lookup_or d name default = default)
  \/ lookup_or d name default ∈ map snd d.
Proof.
  induction d as [|[k v] d IH]; simpl.
  - left. split; [|done]. by intros ?%elem_of_nil.
  - destruct (String.eqb_spec k name) as [->|Hne].
    + right. apply elem_of_cons. by left.
    + destruct IH as [[Hn Hd]|Hin].
      * left. split; [|done]. rewrite elem_of_cons. intros [?|?]; done.
      * right. apply elem_of_cons. by right.
Qed.

(** The names the table gives are left alone by the table. *)
Lemma mapped_names_are_stable :
  Forall (fun v => standardize_state_name (VStr v) = Some v /\ (v ∉ map fst mappings))
         (map snd mappings).
Proof.
  repeat constructor; try (vm_compute; reflexivity);
    apply (bool_decide_unpack _); vm_compute; exact I.
Qed.

(** A standardized name is stable: standardizing it again gives the same
    name, and it is never one of the short forms the table replaces.  Only
    [None] and NaN have no name. *)
Theorem standardized_names_are_stable (name : value) :
  (standardize_state_name name = None <-> isna name = true) /\
  forall t, standardize_state_name name = Some t ->
            standardize_state_name (VStr t) = Some t /\
            (t ∉ map fst mappings).
Proof.
  unfold standardize_state_name at 1 2. split.
  { destruct (isna name); split; congruence. }
  intros t. destruct (isna name); [done|]. cbv zeta. intros Ht.
  apply (inj Some) in Ht.
  pose proof (strip_strip (py_str name)) as Hs.
  set (s := strip (py_str name)) in *.
  destruct (lookup_or_hit_or_miss mappings s s) as [[Hn E]|Hin].
  - rewrite E in Ht. subst t. split; [|done].
    unfold standardize_state_name. cbn [isna py_str]. rewrite Hs.
    by rewrite E.
  - rewrite Ht in Hin. pose proof mapped_names_are_stable as F.
    rewrite Forall_forall in F. by apply F.
Qed.

Lemma standardized_names_are_stable_witness :
  standardize_state_name (VStr " J&K ") = Some "Jammu and Kashmir" /\
  standardize_state_name (VStr "Jammu and Kashmir") = Some "Jammu and Kashmir" /\
  standardize_state_name (VFloat "nan") = None.
Proof.
  destruct (standardized_names_are_stable (VStr " J&K ")) as [_ H].
  destruct (standardized_names_are_stable (VFloat "nan")) as [[_ N] _].
  split; [reflexivity|]. split; [|apply N; reflexivity].
  apply (H "Jammu and Kashmir"). reflexivity.
Defined.

End StateNameFacts.

(** ** Cleaning of non-finite floats *)

Section CleaningFacts.
Import Persist Cleaning.

(** Induction on a document, through its lists and objects. *)
Lemma json_nested_ind (P : json -> Prop) :
  P JNull -> (forall b, P (JBool b)) -> (forall n, P (JInt n)) ->
  (forall r, P (JFloat r)) -> (forall s, P (JStr s)) ->
  (forall items, Forall P items -> P (JList items)) ->
  (forall fields, Forall (fun kv => P (snd kv)) fields -> P (JObj fields)) ->
  forall j, P j.
Proof.
  intros HN HB HI HF HS HL HO. fix IH 1.
  intros [|b|n|r|s|items|fields];
    [exact HN|apply HB|apply HI|apply HF|apply HS| |].
  - apply HL. induction items as [|x l IHl]; constructor; [apply IH|exact IHl].
  - apply HO. induction fields as [|[k v] l IHl]; constructor; [apply IH|exact IHl].
Qed.

(** After the cleaning no float of the value, at any depth, is NaN or
    infinite; the objects keep their keys and the lists their lengths; a
    second cleaning changes nothing, and neither does a first one on a
    value that has only finite floats. *)
Theorem cleaning_leaves_finite_floats (obj : json) :
  all_finite (clean_nan_values obj) = true /\
  shape (clean_nan_values obj) = shape obj /\
  clean_nan_values (clean_nan_values obj) = clean_nan_values obj /\
  (all_finite obj = true -> clean_nan_values obj = obj).
Proof.
  induction obj as [| | |r| |items IH|fields IH] using json_nested_ind;
    try (repeat split; reflexivity).
  - simpl. destruct (non_finite r) eqn:E; simpl; rewrite ?E; repeat split; done.
  - simpl. repeat split.
    + induction IH as [|x l (H & _) _ IHl]; simpl; [done|]. by rewrite H, IHl.
    + f_equal. induction IH as [|x l (_ & H & _) _ IHl]; simpl; [done|].
      by rewrite H, IHl.
    + f_equal. induction IH as [|x l (_ & _ & H & _) _ IHl]; simpl; [done|].
      by rewrite H, IHl.
    + intros Hf. f_equal.
      induction IH as [|x l (_ & _ & _ & H) _ IHl]; simpl; [done|].
      simpl in Hf. apply andb_true_iff in Hf as [H1 H2].
      by rewrite H, IHl.
  - simpl. repeat split.
    + induction IH as [|[k x] l (H & _) _ IHl]; simpl in *; [done|].
      by rewrite H, IHl.
    + f_equal. induction IH as [|[k x] l (_ & H & _) _ IHl]; simpl in *; [done|].
      by rewrite H, IHl.
    + f_equal. induction IH as [|[k x] l (_ & _ & H & _) _ IHl]; simpl in *; [done|].
      by rewrite H, IHl.
    + intros Hf. f_equal.
      induction IH as [|[k x] l (_ & _ & _ & H) _ IHl]; simpl in *; [done|].
      apply andb_true_iff in Hf as [H1 H2]. by rewrite H, IHl.
Qed.

End CleaningFacts.

(** ** Replacing the large files by empty ones *)

Section QuickFixFacts.
Import Persist QuickFix.

Lemma exists_true (fs : files) path c : fs !! path = Some c -> exists_ fs path = true.
Proof. intros H. apply bool_decide_eq_true. eauto. Qed.

Lemma exists_false (fs : files) path : fs !! path = None -> exists_ fs path = false.
Proof. intros H. apply bool_decide_eq_false. rewrite H. by intros [? ?]. Qed.

(** One replacement: the backup is taken only when there is none yet, the
    original ends up empty, nothing else moves. *)
Lemma replace_by_spec doc backup original (fs : files) :
  backup <> original ->
  replace_by doc backup original fs !! original = Some (Dumped doc) /\
  replace_by doc backup original fs !! backup
  = match fs !! backup with
    | Some c => Some c
    | None => fs !! original
    end /\
  forall p, p <> backup -> p <> original ->
            replace_by doc backup original fs !! p = fs !! p.
Proof.
  intros Hne. unfold replace_by, rename.
  destruct (fs !! backup) as [b|] eqn:Hb.
  - rewrite (exists_true fs backup b Hb). simpl.
    rewrite lookup_insert_eq. split; [done|]. split.
    + by rewrite lookup_insert_ne.
    + intros p H1 H2. by rewrite lookup_insert_ne.
  - rewrite (exists_false fs backup Hb). simpl.
    destruct (fs !! original) as [o|] eqn:Ho.
    + rewrite (exists_true fs original o Ho).
      rewrite lookup_insert_eq. split; [done|]. split.
      * rewrite lookup_insert_ne by done. by rewrite lookup_insert_eq.
      * intros p H1 H2. rewrite !lookup_insert_ne by done.
        by rewrite lookup_delete_ne.
    + rewrite (exists_false fs original Ho).
      rewrite lookup_insert_eq. split; [done|]. split.
      * by rewrite lookup_insert_ne.
      * intros p H1 H2. by rewrite lookup_insert_ne.
Qed.

(** The script never overwrites a backup: a backup that exists is kept as
    it is, and where there is none the original is moved there before it is
    replaced.  Both originals end up as the empty documents, and no other
    file is touched. *)
Theorem backups_are_never_overwritten (fs : files) :
  quick_fix fs !! backup1
  = match fs !! backup1 with Some c => Some c | None => fs !! original1 end /\
  quick_fix fs !! backup2
  = match fs !! backup2 with Some c => Some c | None => fs !! original2 end /\
  quick_fix fs !! original1 = Some (Dumped child_annual) /\
  quick_fix fs !! original2 = Some (Dumped child_education) /\
  forall p, p ∉ [backup1; original1; backup2; original2] ->
            quick_fix fs !! p = fs !! p.
Proof.
  unfold quick_fix.
  destruct (replace_by_spec child_annual backup1 original1 fs) as (A1 & A2 & A3);
    [done|].
  destruct (replace_by_spec child_education backup2 original2
              (replace_by child_annual backup1 original1 fs)) as (B1 & B2 & B3);
    [done|].
  split; [by rewrite B3, A2|].
  split; [rewrite B2, !A3 by done; reflexivity|].
  split; [by rewrite B3, A1|].
  split; [exact B1|].
  intros p Hp. rewrite !elem_of_cons, elem_of_nil in Hp.
  rewrite B3, A3 by tauto. reflexivity.
Qed.

End QuickFixFacts.

(** ** Repair of non-finite numbers: the third substitution *)

Section ThirdSubstitution.
Import Text NanFix Repair.

Lemma append_cons c r X : (String c r ++ X)%string = String c (r ++ X).
Proof. reflexivity. Qed.

Lemma length_append_cons (u v : string) :
  String.length (u ++ v) = (String.length u + String.length v)%nat.
Proof. induction u as [|c u IH]; simpl; [done|]. by rewrite IH. Qed.

Lemma startswith_cons a w c t :
  startswith (String a w) (String c t) = true -> a = c /\ startswith w t = true.
Proof. simpl. by destruct (ascii_dec a c). Qed.

Lemma startswith_split w s :
  startswith w s = true -> s = (w ++ drop (String.length w) s)%string.
Proof.
  revert s. induction w as [|a w IH]; intros [|c s]; simpl; try done.
  destruct (ascii_dec a c) as [->|]; [|done]. intros H.
  rewrite append_cons. f_equal. by apply IH.
Qed.

Lemma last_cons c s : exists x, last (String c s) = Some x.
Proof.
  revert c. induction s as [|c' s IH]; intros c; [by exists c|].
  destruct (IH c') as [x Hx]. exists x. exact Hx.
Qed.

Lemma last_or_cons prev a w : last_or prev (String a w) = last_or (Some a) w.
Proof.
  unfold last_or. destruct w as [|c w]; [done|].
  change (last (String a (String c w))) with (last (String c w)).
  by destruct (last_cons c w) as [x ->].
Qed.

Lemma scan_skip lit repl prev w rest :
  scan lit repl prev (String.length w) (w ++ rest)
  = scan lit repl (last_or prev w) 0 rest.
Proof.
  revert prev. induction w as [|a w IH]; intros prev; [by destruct rest|].
  rewrite last_or_cons, append_cons. simpl. apply IH.
Qed.

Lemma all_word_last s : all_word s = true -> s <> "" -> is_word_opt (last s) = true.
Proof.
  induction s as [|c s IH]; [done|]. simpl. intros [Hc Hs]%andb_true_iff _.
  destruct s as [|c' s']; [done|]. by apply IH.
Qed.

Section OneLiteral.
Variables (a : ascii) (w repl : string).
Let lit := String a w.
Hypothesis lit_word : all_word lit = true.
Hypothesis repl_free : occurs a repl = false.
Hypothesis repl_last : is_word_opt (last repl) = true.

Lemma a_word : is_word a = true.
Proof. unfold lit in lit_word. simpl in lit_word. by apply andb_true_iff in lit_word as [? _]. Qed.

Lemma lit_last : exists x, last_or (Some a) w = Some x /\ is_word x = true.
Proof.
  rewrite <- (last_or_cons None a w). unfold last_or.
  pose proof (all_word_last lit lit_word) as L. fold lit.
  destruct (last lit) as [x|]; [|by discriminate L].
  exists x. split; [done|]. by apply L.
Qed.

(** After a word character the pattern cannot match: the scan copies the
    next character. *)
Lemma scan_after_word p c s :
  is_word p = true ->
  scan lit repl (Some p) 0 (String c s) = String c (scan lit repl (Some c) 0 s).
Proof.
  intros Hp. simpl scan. unfold matches_at, boundary. simpl is_word_opt.
  rewrite Hp, a_word. simpl. by rewrite andb_false_r.
Qed.

Lemma first_scan_after_word p s :
  is_word p = true -> first (scan lit repl (Some p) 0 s) = first s.
Proof. intros Hp. destruct s as [|c s]; [done|]. by rewrite scan_after_word. Qed.

(** A stretch of word characters read off the output of the scan, after a
    word character, was copied from the input. *)
Lemma scan_through_word v p s :
  all_word v = true -> is_word p = true ->
  startswith v (scan lit repl (Some p) 0 s) = true ->
  startswith v s = true /\
  drop (String.length v) (scan lit repl (Some p) 0 s)
  = scan lit repl (last_or (Some p) v) 0 (drop (String.length v) s).
Proof.
  revert p s. induction v as [|b v IH]; intros p s Hv Hp.
  - intros _. split; [by destruct s|]. simpl. by destruct (scan _ _ _ _ _), s.
  - simpl in Hv. apply andb_true_iff in Hv as [Hb Hv].
    destruct s as [|c s]; [done|]. rewrite scan_after_word by done. simpl.
    destruct (ascii_dec b c) as [<-|]; [|done]. intros H.
    destruct (IH b s Hv Hb H) as [H1 H2]. split; [done|].
    rewrite last_or_cons. exact H2.
Qed.

Lemma unmatched_app r p X :
  occurs a r = false ->
  unmatched lit (last_or p r) X = true ->
  unmatched lit p (r ++ X) = true.
Proof.
  revert p. induction r as [|c r IH]; intros p Ho HX; [exact HX|].
  simpl in Ho. apply orb_false_iff in Ho as [Hc Ho].
  rewrite last_or_cons in HX. rewrite append_cons. simpl.
  apply andb_true_iff. split.
  - unfold matches_at, lit. simpl. destruct (ascii_dec a c); [done|]. reflexivity.
  - by apply IH.
Qed.

(** What the scan gives holds no match of the pattern any more. *)
Lemma scan_unmatched (n : nat) :
  forall s prev prev_out,
    (String.length s <= n)%nat ->
    is_word_opt prev_out = is_word_opt prev ->
    unmatched lit prev_out (scan lit repl prev 0 s) = true.
Proof.
  induction n as [|n IH]; intros [|c s] prev prev_out Hn Hw; try done.
  { simpl in Hn. lia. }
  simpl in Hn. simpl scan. destruct (matches_at lit prev (String c s)) eqn:Hm.
  - unfold matches_at in Hm.
    apply andb_true_iff in Hm as [[Hs _]%andb_true_iff _].
    apply startswith_split in Hs. simpl in Hs. injection Hs as -> Hs.
    rewrite Hs, Nat.sub_0_r, scan_skip. apply unmatched_app; [done|].
    assert (R : last_or prev_out repl = last repl).
    { unfold last_or. destruct (last repl); done. }
    rewrite R. apply IH.
    + rewrite Hs in Hn. rewrite length_append_cons in Hn. lia.
    + rewrite repl_last. destruct lit_last as (x & -> & Hx). by symmetry.
  - simpl. apply andb_true_iff. split; [|apply IH; [lia|done]].
    destruct (matches_at lit prev_out (String c (scan lit repl (Some c) 0 s)))
      eqn:Hout; [|done].
    unfold matches_at in Hout.
    apply andb_true_iff in Hout as [[Hs Hb1]%andb_true_iff Hb2].
    unfold lit in Hs. simpl in Hs. destruct (ascii_dec a c) as [<-|]; [|done].
    pose proof lit_word as Hlw. unfold lit in Hlw. simpl in Hlw.
    apply andb_true_iff in Hlw as [Ha Hwv].
    destruct (scan_through_word w a s Hwv Ha Hs) as [Hin Hdrop].
    assert (Hm' : matches_at lit prev (String a s) = true); [|congruence].
    unfold matches_at. apply andb_true_iff. split; [apply andb_true_iff; split|].
    + unfold lit. simpl. destruct (ascii_dec a a); done.
    + unfold boundary in *. by rewrite <- Hw.
    + unfold lit in *. simpl String.length in *. simpl drop in *.
      rewrite Hdrop in Hb2. destruct lit_last as (x & Hx & Hxw).
      rewrite Hx in Hb2.
      change (String a w) with lit in Hb2.
      by rewrite (first_scan_after_word x _ Hxw) in Hb2.
Qed.

End OneLiteral.

Lemma unmatched_suffix lit prev u rest :
  unmatched lit prev (u ++ rest) = true ->
  unmatched lit (last_or prev u) rest = true.
Proof.
  revert prev. induction u as [|c u IH]; intros prev; [done|].
  rewrite append_cons, last_or_cons.
  intros [_ H]%andb_true_iff. by apply IH.
Qed.

(** A text without a match is left as it is by the scan. *)
Lemma scan_fixed lit repl prev t :
  unmatched lit prev t = true -> scan lit repl prev 0 t = t.
Proof.
  revert prev. induction t as [|c t IH]; intros prev; [done|].
  intros [Hn Ht]%andb_true_iff. apply negb_true_iff in Hn.
  simpl scan. rewrite Hn. by rewrite IH.
Qed.

Section TwoLiterals.
Variables (a1 : ascii) (w1 : string) (a2 : ascii) (w2 repl : string).
Let lit1 := String a1 w1.
Let lit2 := String a2 w2.
Hypothesis lit1_word : all_word lit1 = true.
Hypothesis lit2_word : all_word lit2 = true.
Hypothesis repl_free : occurs a1 repl = false.
Hypothesis repl_last : is_word_opt (last repl) = true.

(** Replacing the matches of one pattern creates no match of the
    other. *)
Lemma scan_keeps_unmatched (n : nat) :
  forall s prev prev_out,
    (String.length s <= n)%nat ->
    is_word_opt prev_out = is_word_opt prev ->
    unmatched lit1 prev s = true ->
    unmatched lit1 prev_out (scan lit2 repl prev 0 s) = true.
Proof.
  induction n as [|n IH]; intros [|c s] prev prev_out Hn Hw Hu; try done.
  { simpl in Hn. lia. }
  simpl in Hn. simpl scan. destruct (matches_at lit2 prev (String c s)) eqn:Hm.
  - unfold matches_at in Hm.
    apply andb_true_iff in Hm as [[Hs _]%andb_true_iff _].
    apply startswith_split in Hs. simpl in Hs. injection Hs as -> Hs.
    rewrite Hs, Nat.sub_0_r, scan_skip. apply (unmatched_app a1 w1); [done|].
    assert (R : last_or prev_out repl = last repl).
    { unfold last_or. destruct (last repl); done. }
    rewrite R. apply IH.
    + rewrite Hs in Hn. rewrite length_append_cons in Hn. lia.
    + rewrite repl_last. destruct (lit_last a2 w2 lit2_word) as (x & -> & Hx).
      by symmetry.
    + rewrite Hs in Hu. rewrite <- (last_or_cons prev a2 w2).
      apply unmatched_suffix. exact Hu.
  - apply andb_true_iff in Hu as [Hu1 Hu2]. apply negb_true_iff in Hu1.
    simpl. apply andb_true_iff. split; [|apply IH; [lia|done|done]].
    destruct (matches_at lit1 prev_out (String c (scan lit2 repl (Some c) 0 s)))
      eqn:Hout; [|done].
    unfold matches_at in Hout.
    apply andb_true_iff in Hout as [[Hs Hb1]%andb_true_iff Hb2].
    apply startswith_cons in Hs as [<- Hs].
    pose proof lit1_word as Hlw. unfold lit1 in Hlw. simpl in Hlw.
    apply andb_true_iff in Hlw as [Ha Hwv].
    destruct (scan_through_word a2 w2 repl lit2_word w1 a1 s Hwv Ha Hs)
      as [Hin Hdrop].
    assert (Hm' : matches_at lit1 prev (String a1 s) = true); [|congruence].
    unfold matches_at. apply andb_true_iff. split; [apply andb_true_iff; split|].
    + unfold lit1. simpl. destruct (ascii_dec a1 a1); done.
    + unfold boundary in *. by rewrite <- Hw.
    + unfold lit1, lit2 in *. simpl String.length in *. simpl drop in *.
      rewrite Hdrop in Hb2. destruct (lit_last a1 w1 lit1_word) as (x & Hx & Hxw).
      rewrite Hx in Hb2.
      by rewrite (first_scan_after_word a2 w2 repl lit2_word x _ Hxw) in Hb2.
Qed.

End TwoLiterals.

(** A text without a match of [\b Infinity \b] has none of
    [\b -Infinity \b] either. *)
Lemma minus_needs_infinity t prev :
  unmatched "Infinity" prev t = true ->
  scan "-Infinity" "null" prev 0 t = t.
Proof.
  revert prev. induction t as [|c t IH]; intros prev; [done|].
  intros [_ Ht]%andb_true_iff.
  change (scan "-Infinity" "null" prev 0 (String c t))
    with (if matches_at "-Infinity" prev (String c t)
          then ("null" ++ scan "-Infinity" "null" (Some c) 8 t)%string
          else String c (scan "-Infinity" "null" (Some c) 0 t)).
  destruct (matches_at "-Infinity" prev (String c t)) eqn:Hm;
    [|by rewrite (IH _ Ht)].
  exfalso. unfold matches_at in Hm.
  apply andb_true_iff in Hm as [[Hs _]%andb_true_iff Hb].
  apply startswith_cons in Hs as [<- Hs].
  destruct t as [|c' t']; [done|].
  apply andb_true_iff in Ht as [Hn _].
  apply negb_true_iff in Hn. unfold matches_at in Hn.
  rewrite Hs in Hn.
  change (boundary (Some "-"%char) (first "Infinity")) with true in Hn.
  change (drop (String.length "-Infinity") (String "-" (String c' t')))
    with (drop (String.length "Infinity") (String c' t')) in Hb.
  change (last "-Infinity") with (last "Infinity") in Hb.
  simpl in Hn, Hb. congruence.
Qed.

(** The third substitution of the repair never changes anything: once
    [\b Infinity \b] is replaced, [\b -Infinity \b] has nothing left to
    match, so the repair is the first two substitutions alone. *)
Theorem third_substitution_is_dead (content : string) :
  re_sub "-Infinity" "null" (re_sub "Infinity" "null" content)
  = re_sub "Infinity" "null" content /\
  fix_content content = re_sub "Infinity" "null" (re_sub "NaN" "null" content).
Proof.
  assert (D : forall c, re_sub "-Infinity" "null" (re_sub "Infinity" "null" c)
                        = re_sub "Infinity" "null" c).
  { intros c. unfold re_sub. apply minus_needs_infinity.
    apply (scan_unmatched "I" "nfinity" "null" eq_refl eq_refl eq_refl
             (String.length c)); done. }
  split; [apply D|]. unfold fix_content. apply D.
Qed.

(** The repair can be run again: on a text it has repaired it changes
    nothing, and neither does any one of its substitutions on its own
    output. *)
Theorem repair_is_idempotent (content : string) :
  fix_content (fix_content content) = fix_content content /\
  re_sub "NaN" "null" (re_sub "NaN" "null" content)
  = re_sub "NaN" "null" content /\
  re_sub "Infinity" "null" (re_sub "Infinity" "null" content)
  = re_sub "Infinity" "null" content.
Proof.
  assert (N : forall c, unmatched "NaN" None (re_sub "NaN" "null" c) = true).
  { intros c. apply (scan_unmatched "N" "aN" "null" eq_refl eq_refl eq_refl
                       (String.length c)); done. }
  assert (I : forall c, unmatched "Infinity" None (re_sub "Infinity" "null" c) = true).
  { intros c. apply (scan_unmatched "I" "nfinity" "null" eq_refl eq_refl eq_refl
                       (String.length c)); done. }
  assert (K : forall c, unmatched "NaN" None c = true ->
                        unmatched "NaN" None (re_sub "Infinity" "null" c) = true).
  { intros c Hc.
    apply (scan_keeps_unmatched "N" "aN" "I" "nfinity" "null"
             eq_refl eq_refl eq_refl eq_refl (String.length c)); done. }
  assert (D : forall c, fix_content c
                        = re_sub "Infinity" "null" (re_sub "NaN" "null" c)).
  { intros c. unfold fix_content, re_sub. apply minus_needs_infinity, I. }
  split; [|split].
  - rewrite !D. unfold re_sub at 2.
    rewrite (scan_fixed "NaN" "null" None) by apply K, N.
    unfold re_sub at 1. by rewrite (scan_fixed "Infinity" "null" None) by apply I.
  - unfold re_sub at 1. by rewrite (scan_fixed "NaN" "null" None) by apply N.
  - unfold re_sub at 1. by rewrite (scan_fixed "Infinity" "null" None) by apply I.
Qed.

End ThirdSubstitution.

(** ** The batch of repairs *)

Section BatchFacts.
Import Text NanFix.
Variable json_load : string -> verdict.

Abbreviation step := (NanFix.step json_load).
Abbreviation main := (NanFix.main json_load).
Abbreviation well_behaved := (NanFix.well_behaved json_load).
Abbreviation fails := (NanFix.fails json_load).
Abbreviation result_lines := (NanFix.result_lines json_load).

(** Once an exception is raised nothing more happens. *)
Lemma step_after_raise st filename :
  is_Some (raised st) -> step st filename = st.
Proof. intros [e He]. unfold NanFix.step. by rewrite He. Qed.

Lemma batch_after_raise listing st :
  is_Some (raised st) -> fold_left step listing st = st.
Proof.
  induction listing as [|f l IH]; intros H; [done|]. simpl.
  rewrite step_after_raise by done. by apply IH.
Qed.

(** A step writes no file but its own, and that one only if selected. *)
Lemma step_other_file st filename other :
  other <> filename \/ selected filename = false ->
  files (step st filename) !! other = files st !! other.
Proof.
  intros H. unfold NanFix.step. destruct (raised st); [done|].
  destruct (selected filename) eqn:Hs; [|done].
  destruct H as [Hne|?]; [|done].
  unfold fix_json_file. destruct (files st !! filename) as [[c|]|]; try done.
  destruct (json_load _); simpl; by rewrite lookup_insert_ne.
Qed.

Lemma batch_other_file listing st other :
  other ∉ listing \/ selected other = false ->
  files (fold_left step listing st) !! other = files st !! other.
Proof.
  revert st. induction listing as [|f l IH]; intros st H; [done|]. simpl.
  rewrite IH, step_other_file; [done| |].
  - destruct H as [H|H]; [|destruct (decide (other = f)) as [->|]; auto].
    left. intros ->. apply H, elem_of_cons. by left.
  - destruct H as [H|H]; [|by right].
    left. intros Hin. apply H, elem_of_cons. by right.
Qed.

(** Lines are only ever added, and each added line is about the file of
    the step. *)
Lemma step_prints st filename :
  exists extra,
    printed (step st filename) = printed st ++ extra /\
    Forall (fun x => about x = Some filename) extra.
Proof.
  unfold NanFix.step. destruct (raised st).
  { exists []. by rewrite app_nil_r. }
  destruct (selected filename).
  2: { exists []. by rewrite app_nil_r. }
  unfold fix_json_file. destruct (files st !! filename) as [[c|]|];
    try destruct (json_load _); simpl; rewrite <- ?app_assoc;
    eexists; (split; [reflexivity|]); repeat constructor.
Qed.

Lemma step_keeps_lines st filename x : x ∈ printed st -> x ∈ printed (step st filename).
Proof.
  intros Hx. destruct (step_prints st filename) as (extra & -> & _).
  apply elem_of_app. by left.
Qed.

Lemma batch_keeps_lines listing st x :
  x ∈ printed st -> x ∈ printed (fold_left step listing st).
Proof.
  revert st. induction listing as [|f l IH]; intros st Hx; simpl; [done|].
  by apply IH, step_keeps_lines.
Qed.

Lemma step_lines_about st filename x :
  x ∈ printed (step st filename) -> x ∈ printed st \/ about x = Some filename.
Proof.
  destruct (step_prints st filename) as (extra & -> & Hf).
  intros [H|H]%elem_of_app; [by left|]. right.
  rewrite Forall_forall in Hf. by apply Hf.
Qed.

Lemma batch_lines_about listing st x :
  x ∈ printed (fold_left step listing st) ->
  x ∈ printed st \/ exists f, f ∈ listing /\ about x = Some f.
Proof.
  revert st. induction listing as [|f l IH]; intros st; simpl; [by left|].
  intros [H|(g & Hg & Ha)]%IH.
  - apply step_lines_about in H as [H|H]; [by left|].
    right. exists f. split; [apply elem_of_cons; by left|done].
  - right. exists g. split; [apply elem_of_cons; by right|done].
Qed.

(** One file that is got through. *)
Lemma step_well_behaved st filename content :
  raised st = None -> selected filename = true ->
  files st !! filename = Some (Text content) ->
  json_load (fix_content content) <> Crashes ->
  step st filename
  = mkRun (<[filename := Text (fix_content content)]> (files st))
          (printed st ++ [Fixing filename] ++ result_lines filename content)
          None.
Proof.
  intros Hr Hs Hc Hl. unfold NanFix.step, fix_json_file, NanFix.result_lines.
  rewrite Hr, Hs, Hc. destruct (json_load _); try done; simpl;
    by rewrite <- ?app_assoc.
Qed.

(** One file that the script stops at. *)
Lemma step_fails st filename :
  raised st = None -> selected filename = true -> fails (files st) filename ->
  is_Some (raised (step st filename)) /\
  printed (step st filename) = printed st ++ [Fixing filename] /\
  forall other, other <> filename ->
                files (step st filename) !! other = files st !! other.
Proof.
  intros Hr Hs Hf. unfold NanFix.step, fix_json_file, NanFix.fails in *.
  rewrite Hr, Hs. destruct (files st !! filename) as [[c|]|]; simpl.
  - rewrite Hf. simpl. split; [eauto|]. split; [done|].
    intros other Hne. by rewrite lookup_insert_ne.
  - split; [eauto|]. by split.
  - split; [eauto|]. by split.
Qed.

(** The batch over files that are all got through. *)
Lemma batch_run listing st :
  NoDup listing -> raised st = None ->
  (forall f, f ∈ listing -> selected f = true -> well_behaved (files st) f) ->
  raised (fold_left step listing st) = None /\
  forall f content,
    f ∈ listing -> selected f = true -> files st !! f = Some (Text content) ->
    files (fold_left step listing st) !! f = Some (Text (fix_content content)) /\
    Fixing f ∈ printed (fold_left step listing st) /\
    forall x, x ∈ result_lines f content ->
              x ∈ printed (fold_left step listing st).
Proof.
  intros Hnd. revert st. induction Hnd as [|f l Hf Hnd IH]; intros st Hr Hwb.
  { split; [done|]. intros f c Hin. by apply elem_of_nil in Hin. }
  simpl.
  assert (Hst : raised (step st f) = None /\
                forall g, g <> f -> files (step st f) !! g = files st !! g).
  { destruct (selected f) eqn:Hs.
    - destruct (Hwb f) as (c & Hc & _ & Hl); [apply elem_of_cons; by left|done|].
      rewrite (step_well_behaved st f c) by done. split; [done|].
      intros g Hg. simpl. by rewrite lookup_insert_ne.
    - unfold NanFix.step. rewrite Hr, Hs. by split. }
  destruct Hst as [Hr' Hother].
  assert (Hwb' : forall g, g ∈ l -> selected g = true ->
                           well_behaved (files (step st f)) g).
  { intros g Hg Hs. destruct (Hwb g) as (c & Hc & Ha & Hl);
      [apply elem_of_cons; by right|done|].
    exists c. rewrite Hother by (intros ->; done). done. }
  destruct (IH (step st f) Hr' Hwb') as [IH1 IH2]. split; [exact IH1|].
  intros g c [->|Hg]%elem_of_cons Hs Hc.
  - destruct (Hwb f) as (c' & Hc' & _ & Hl); [apply elem_of_cons; by left|done|].
    assert (c' = c) as -> by congruence.
    rewrite batch_other_file by (by left).
    rewrite (step_well_behaved st f c) by done. simpl.
    rewrite lookup_insert_eq. split; [done|].
    split; [|intros x Hx]; apply batch_keeps_lines; simpl;
      rewrite !elem_of_app, ?elem_of_cons; auto.
  - apply IH2; [done|done|]. rewrite Hother by (intros ->; done). done.
Qed.

(** In a batch whose selected files are all ASCII texts that [json.load]
    either accepts or rejects with [JSONDecodeError], no exception ends the
    script, every selected file is announced and gets its result lines (a
    text that is still invalid is reported and marked failed, and the loop
    goes on), and the closing line is printed. *)
Theorem batch_continues (listing : list string) (d : directory) :
  NoDup listing ->
  (forall f, f ∈ listing -> selected f = true -> well_behaved d f) ->
  raised (main listing d) = None /\
  AllFixed ∈ printed (main listing d) /\
  forall f content,
    f ∈ listing -> selected f = true -> d !! f = Some (Text content) ->
    Fixing f ∈ printed (main listing d) /\
    match json_load (fix_content content) with
    | Parses => Ok f ∈ printed (main listing d)
    | _ => StillInvalid f ∈ printed (main listing d) /\
           Failed f ∈ printed (main listing d)
    end.
Proof.
  intros Hnd Hwb.
  destruct (batch_run listing (mkRun d [] None) Hnd eq_refl Hwb) as [Hr Hf].
  unfold NanFix.main. rewrite Hr. simpl. split; [done|].
  split; [apply elem_of_app; right; by apply list_elem_of_singleton|].
  intros f c Hin Hs Hc. destruct (Hf f c Hin Hs Hc) as (_ & H1 & H2).
  split; [apply elem_of_app; by left|].
  unfold NanFix.result_lines in H2.
  destruct (json_load (fix_content c));
    repeat split; apply elem_of_app; left; apply H2;
    rewrite !elem_of_cons; auto.
Qed.

(** After such a batch every selected file of the listing holds its
    repaired text, whether or not that text parses; and in any batch
    whatever a file that is not listed or not selected is as it was. *)
Theorem batch_repairs_the_selected_files
    (listing : list string) (d : directory) (filename : string) :
  (NoDup listing ->
   (forall f, f ∈ listing -> selected f = true -> well_behaved d f) ->
   forall content,
     filename ∈ listing -> selected filename = true ->
     d !! filename = Some (Text content) ->
     files (main listing d) !! filename = Some (Text (fix_content content))) /\
  (filename ∉ listing \/ selected filename = false ->
   files (main listing d) !! filename = d !! filename).
Proof.
  assert (M : files (main listing d)
              = files (fold_left step listing (mkRun d [] None))).
  { unfold NanFix.main. by destruct (raised _). }
  rewrite M. split.
  - intros Hnd Hwb c Hin Hs Hc.
    destruct (batch_run listing (mkRun d [] None) Hnd eq_refl Hwb) as [_ Hf].
    by destruct (Hf filename c Hin Hs Hc) as (H & _).
  - intros H. by rewrite batch_other_file.
Qed.

(** The batch stops at the first selected file that cannot be read, or on
    which [json.load] raises anything but [JSONDecodeError]: the file is
    announced and gets no result line, the closing line is not printed, and
    the files listed after it are neither announced nor changed. *)
Theorem batch_stops_at_an_exception
    (before after : list string) (f : string) (d : directory) :
  NoDup (before ++ f :: after) ->
  (forall g, g ∈ before -> selected g = true -> well_behaved d g) ->
  selected f = true -> fails d f ->
  let st' := main (before ++ f :: after) d in
  is_Some (raised st') /\
  Fixing f ∈ printed st' /\
  (Ok f ∉ printed st') /\ (Failed f ∉ printed st') /\ (AllFixed ∉ printed st') /\
  forall g, g ∈ after ->
            files st' !! g = d !! g /\ (Fixing g ∉ printed st').
Proof.
  intros Hnd Hwb Hs Hf. cbv zeta.
  apply NoDup_app in Hnd as (Hb & Hdis & Hfa).
  apply NoDup_cons in Hfa as [Hfa Ha].
  assert (Hfb : f ∉ before).
  { intros Hin. apply (Hdis f Hin), elem_of_cons. by left. }
  set (st0 := mkRun d [] None).
  set (st1 := fold_left step before st0).
  destruct (batch_run before st0 Hb eq_refl Hwb) as [Hr1 _]. fold st1 in Hr1.
  assert (Hf1 : fails (files st1) f).
  { unfold NanFix.fails, st1. by rewrite batch_other_file by (by left). }
  destruct (step_fails st1 f Hr1 Hs Hf1) as (Hr2 & Hp2 & Hd2).
  assert (E : main (before ++ f :: after) d = step st1 f).
  { unfold NanFix.main. fold st0. rewrite fold_left_app. simpl. fold st1.
    rewrite batch_after_raise by done. by destruct Hr2 as [e ->]. }
  rewrite E.
  assert (L : forall x, x ∈ printed (step st1 f) ->
                        x = Fixing f \/ exists g, g ∈ before /\ about x = Some g).
  { intros x. rewrite Hp2, elem_of_app, list_elem_of_singleton.
    intros [Hx|Hx]; [|by left].
    apply batch_lines_about in Hx as [Hx|Hx]; [|by right].
    by apply elem_of_nil in Hx. }
  split; [exact Hr2|].
  split; [rewrite Hp2; apply elem_of_app; right; by apply list_elem_of_singleton|].
  split; [intros [?|(g & Hg & [= ->])]%L; done|].
  split; [intros [?|(g & Hg & [= ->])]%L; done|].
  split; [intros [?|(g & Hg & ?)]%L; done|].
  intros g Hg. split.
  - rewrite Hd2 by (intros ->; done). unfold st1.
    rewrite batch_other_file; [done|]. left. intros Hin.
    apply (Hdis g Hin), elem_of_cons. by right.
  - intros [[= ->]|(h & Hh & [= <-])]%L; [done|].
    apply (Hdis g Hh), elem_of_cons. by right.
Qed.

End BatchFacts.

Section BatchWitnesses.
Import Text NanFix BatchExamples.

Lemma toy_listing_NoDup : NoDup toy_listing.
Proof. by apply (bool_decide_unpack _). Qed.

Lemma toy_well_behaved f :
  f ∈ toy_listing -> selected f = true -> well_behaved toy_load toy_directory f.
Proof.
  unfold toy_listing. rewrite !elem_of_cons, elem_of_nil.
  intros [->|[->|[->|[]]]] Hs; try discriminate Hs.
  - exists "[-Infinity]". by repeat split.
  - exists "[NaN]". by repeat split.
Qed.

Lemma batch_continues_witness :
  raised (main toy_load toy_listing toy_directory) = None /\
  Failed "a.json" ∈ printed (main toy_load toy_listing toy_directory) /\
  Ok "b.json" ∈ printed (main toy_load toy_listing toy_directory).
Proof.
  destruct (batch_continues toy_load toy_listing toy_directory
              toy_listing_NoDup toy_well_behaved) as (Hr & _ & Hf).
  split; [exact Hr|]. split.
  - destruct (Hf "a.json" "[-Infinity]") as [_ [_ H]]; try reflexivity; [|exact H].
    apply elem_of_cons. by left.
  - destruct (Hf "b.json" "[NaN]") as [_ H]; try reflexivity; [|exact H].
    unfold toy_listing. rewrite !elem_of_cons. auto.
Defined.

Lemma batch_repairs_the_selected_files_witness :
  files (main toy_load toy_listing toy_directory) !! "b.json"
  = Some (Text "[null]") /\
  files (main toy_load toy_listing toy_directory) !! "schema_analysis.json"
  = Some (Text "[NaN]").
Proof.
  split.
  - destruct (batch_repairs_the_selected_files toy_load toy_listing toy_directory
                "b.json") as [H _].
    apply (H toy_listing_NoDup toy_well_behaved "[NaN]"); try reflexivity.
    unfold toy_listing. rewrite !elem_of_cons. auto.
  - destruct (batch_repairs_the_selected_files toy_load toy_listing toy_directory
                "schema_analysis.json") as [_ H].
    apply H. right. reflexivity.
Defined.

Lemma batch_stops_at_an_exception_witness :
  is_Some (raised (main toy_load ["a.json"; "b.json"; "c.json"] deep_directory)) /\
  files (main toy_load ["a.json"; "b.json"; "c.json"] deep_directory) !! "c.json"
  = Some (Text "[NaN]") /\
  (Fixing "c.json"
   ∉ printed (main toy_load ["a.json"; "b.json"; "c.json"] deep_directory)).
Proof.
  assert (N : NoDup (["a.json"] ++ "b.json" :: ["c.json"]))
    by (by apply (bool_decide_unpack _)).
  assert (W : forall g, g ∈ ["a.json"] -> selected g = true ->
                        well_behaved toy_load deep_directory g).
  { intros g ->%list_elem_of_singleton _. exists "[NaN]". by repeat split. }
  destruct (batch_stops_at_an_exception toy_load ["a.json"] ["c.json"] "b.json"
              deep_directory N W eq_refl eq_refl) as (Hr & _ & _ & _ & _ & Hc).
  destruct (Hc "c.json") as [H1 H2]; [by apply list_elem_of_singleton|].
  split; [exact Hr|]. split; [exact H1|exact H2].
Defined.

End BatchWitnesses.
